(** * SharePointQueryable: URL resolution, query accumulator and request context

    A shallow embedding of [packages/sp/src/sharepointqueryable.ts].

    - Strings are [string]s of one-byte code units.
    - The query accumulators are [Dictionary] objects living in a heap and
      addressed by reference: fluent calls mutate them in place, so every
      method is a computation in the heap monad [M].
    - The calls that leave the class for its collaborators (batch, absolute
      URL resolution, correlation ids) are the nodes of a [Prog] tree, which
      [run] plays against an arbitrary [Handler] while recording a trace.
    - [combinePaths] and [isUrlAbsolute] come from [@pnp/common]; the
      development is parametric in them. *)

From Stdlib Require Import String Ascii ZArith List Lia Bool.
From Stdlib Require Import DecimalString.
From stdpp Require Import base option list strings gmap.

Local Open Scope Z_scope.

#[local] Arguments String.append !s1 s2 : simpl nomatch.

(** ** JavaScript string primitives *)

Module JsString.

(** [s.lastIndexOf(c)] for a one-character search string: the index of the
    last occurrence of [c], or [-1]. [i] is the index of the head of [s],
    [acc] the last occurrence seen so far. *)
Fixpoint lastIndexOf_from (s : string) (c : ascii) (i acc : Z) : Z :=
  match s with
  | EmptyString => acc
  | String a s' => lastIndexOf_from s' c (i + 1) (if Ascii.eqb a c then i else acc)
  end.

Definition lastIndexOf (s : string) (c : ascii) : Z :=
  lastIndexOf_from s c 0 (-1).

(** Relative index resolution of [String.prototype.slice]: a negative
    index counts from the end; the result is clamped to [0..len]. *)
Definition clampIndex (len i : Z) : Z :=
  if i <? 0 then Z.max (len + i) 0 else Z.min i len.

(** [s.slice(start, end)]; [end] absent means the length of [s]. *)
Definition slice (s : string) (start : Z) (end_ : option Z) : string :=
  let len := Z.of_nat (String.length s) in
  let from := clampIndex len start in
  let to := match end_ with
            | None => len
            | Some e => clampIndex len e
            end in
  String.substring (Z.to_nat from) (Z.to_nat (Z.max (to - from) 0)) s.

(** [parts.join(sep)] on an array of strings. *)
Fixpoint join (sep : string) (parts : list string) : string :=
  match parts with
  | [] => EmptyString
  | [p] => p
  | p :: ps => p +:+ sep +:+ join sep ps
  end.

(** In [join] a null element prints as the empty string. *)
Definition joinNullable (sep : string) (parts : list (option string)) : string :=
  join sep (map (default EmptyString) parts).

(** [c] occurs in [s]. *)
Fixpoint occurs (c : ascii) (s : string) : bool :=
  match s with
  | EmptyString => false
  | String a s' => Ascii.eqb a c || occurs c s'
  end.

End JsString.

(** ** The query accumulator *)

Module Dictionary.

(** Modelled from the spec: the [Dictionary] class of [@pnp/common] is not
    part of the sources. The spec describes it as an ordered, key-unique
    mapping from parameter name to value: [add] overwrites the value of an
    existing key and keeps its position, a new key goes last; [get]
    answers the value or null; [getKeys] lists the keys in insertion
    order; [count] is the number of keys; [merge] adds every entry of the
    other dictionary, overwriting on key collision. *)
Definition t : Type := list (string * string).

Definition empty : t := [].

Fixpoint add (key value : string) (d : t) : t :=
  match d with
  | [] => [(key, value)]
  | (k, v) :: d' =>
      if String.eqb k key then (k, value) :: d' else (k, v) :: add key value d'
  end.

Fixpoint get (key : string) (d : t) : option string :=
  match d with
  | [] => None
  | (k, v) :: d' => if String.eqb k key then Some v else get key d'
  end.

Definition getKeys (d : t) : list string := map fst d.

Definition count (d : t) : nat := length d.

Definition merge (source : t) (target : t) : t :=
  fold_left (fun acc kv => add (fst kv) (snd kv) acc) source target.

End Dictionary.

(** ** The heap of mutable objects *)

Inductive LogLevel := Verbose | Info | Warning | Error.

(** References into the heap. *)
Abbreviation ref := nat.

Record Heap := mkHeap {
  dicts : list Dictionary.t;
  logged : list (LogLevel * string)
}.

Definition M (A : Type) : Type := Heap -> A * Heap.

Global Instance M_ret : MRet M := fun A a h => (a, h).

Global Instance M_bind : MBind M :=
  fun A B k m h => let (a, h') := m h in k a h'.

(** The dictionary a reference points to. *)
Definition deref (h : Heap) (r : ref) : Dictionary.t :=
  default Dictionary.empty (dicts h !! r).

Definition update (r : ref) (f : Dictionary.t -> Dictionary.t) : M unit :=
  fun h => (tt, mkHeap (<[r := f (deref h r)]> (dicts h)) (logged h)).

(** [new Dictionary()] *)
Definition new_Dictionary : M ref :=
  fun h => (length (dicts h), mkHeap (dicts h ++ [Dictionary.empty]) (logged h)).

Definition dict_add (r : ref) (key value : string) : M unit :=
  update r (Dictionary.add key value).

Definition dict_get (r : ref) (key : string) : M (option string) :=
  fun h => (Dictionary.get key (deref h r), h).

Definition dict_getKeys (r : ref) : M (list string) :=
  fun h => (Dictionary.getKeys (deref h r), h).

Definition dict_count (r : ref) : M nat :=
  fun h => (Dictionary.count (deref h r), h).

(** [target.merge(source)]: reads [source], writes [target] only. *)
Definition dict_merge (target source : ref) : M unit :=
  fun h => update target (Dictionary.merge (deref h source)) h.

(** [Logger.write(message, level)] *)
Definition Logger_write (message : string) (level : LogLevel) : M unit :=
  fun h => (tt, mkHeap (dicts h) (logged h ++ [(level, message)])).

(** [xs.map(f)] with an effectful callback. *)
Fixpoint mapM {A B} (f : A -> M B) (xs : list A) : M (list B) :=
  match xs with
  | [] => mret []
  | x :: xs' => y ← f x; ys ← mapM f xs'; mret (y :: ys)
  end.

(** ** The aliased-parameter pattern /'!(@.*?)::(.*?)'/ig *)

Module AliasRegExp.

(** What [.] does not match. With one-byte code units these are line
    feed and carriage return. *)
Definition isLineTerminator (c : ascii) : bool :=
  Ascii.eqb c "010"%char || Ascii.eqb c "013"%char.

Record Match := mkMatch {
  whole : string;      (* the matched text *)
  labelName : string;  (* first group, [(@.*?)] *)
  value : string;      (* second group, [(.*?)] *)
  rest : string        (* what follows the match *)
}.

(** [(.*?)'] at the head of [s]: the lazy group takes as few characters
    as possible, so it stops at the first quote; it cannot cross a line
    terminator. Yields the group and what follows the quote. *)
Fixpoint lazyValue (s : string) : option (string * string) :=
  match s with
  | EmptyString => None
  | String c s' =>
      if Ascii.eqb c "'"%char then Some (EmptyString, s')
      else if isLineTerminator c then None
      else match lazyValue s' with
           | Some (v, r) => Some (String c v, r)
           | None => None
           end
  end.

(** [(.*?)::(.*?)'] at the head of [s] (the label after its [@]): the
    lazy group first tries to stop here, which needs [::] next and the
    rest of the pattern to match after it; failing that it takes one more
    character, which must not be a line terminator, and tries again. *)
Fixpoint lazyLabel (s : string) : option (string * string * string) :=
  let more :=
    match s with
    | EmptyString => None
    | String c s' =>
        if isLineTerminator c then None
        else match lazyLabel s' with
             | Some (l, v, r) => Some (String c l, v, r)
             | None => None
             end
    end in
  match s with
  | String ":" (String ":" s2) =>
      match lazyValue s2 with
      | Some (v, r) => Some (EmptyString, v, r)
      | None => more
      end
  | _ => more
  end.

(** One attempt to match the pattern at the head of [s]. The [i] flag
    changes nothing: the pattern has no letters. *)
Definition exec (s : string) : option Match :=
  match s with
  | String "'" (String "!" (String "@" s3)) =>
      match lazyLabel s3 with
      | Some (l, v, r) =>
          Some (mkMatch ("'!@" +:+ l +:+ "::" +:+ v +:+ "'") (String "@" l) v r)
      | None => None
      end
  | _ => None
  end.

(** [s.replace(pattern, replacer)] with the [g] flag: the matches are
    looked for from left to right, each search starting where the previous
    match ended; [replacer] is called with every match in turn and its
    result stands in for the matched text. [skip] counts the characters of
    the current match that are still to be passed over. *)
Fixpoint replace_from (s : string) (skip : nat)
    (replacer : string -> string -> string -> M string) : M string :=
  match s with
  | EmptyString => mret EmptyString
  | String c s' =>
      match skip with
      | S k => replace_from s' k replacer
      | O =>
          match exec s with
          | Some m =>
              r ← replacer (whole m) (labelName m) (value m);
              out ← replace_from s' (String.length (whole m) - 1)%nat replacer;
              mret (r +:+ out)
          | None =>
              out ← replace_from s' 0%nat replacer;
              mret (String c out)
          end
      end
  end.

Definition replace (s : string)
    (replacer : string -> string -> string -> M string) : M string :=
  replace_from s 0%nat replacer.

(** The pattern can match somewhere in [s]. *)
Fixpoint hasMatch (s : string) : bool :=
  match s with
  | EmptyString => false
  | String _ s' => match exec s with Some _ => true | None => hasMatch s' end
  end.

End AliasRegExp.

(** ** /^get$/i *)

Module GetRegExp.

(** Canonicalisation under the [i] flag: comparison is made on the
    upper-case forms; only the ASCII letters matter for this pattern. *)
Definition canonicalize (c : ascii) : ascii :=
  let n := nat_of_ascii c in
  if ((97 <=? n) && (n <=? 122))%nat then ascii_of_nat (n - 32) else c.

Definition charMatches (pattern c : ascii) : bool :=
  Ascii.eqb (canonicalize pattern) (canonicalize c).

(** [/^get$/i.test(verb)]: without the [m] flag [^] and [$] are the two
    ends of the input. *)
Definition test (verb : string) : bool :=
  match verb with
  | String c1 (String c2 (String c3 EmptyString)) =>
      charMatches "g" c1 && charMatches "e" c2 && charMatches "t" c3
  | _ => false
  end.

End GetRegExp.

(** ** Queryable nodes *)

(** Values of request options: plain settings, or the table of headers. *)
Inductive OptionValue :=
| OptionString (s : string)
| OptionHeaders (headers : list (string * string)).

(** [FetchOptions] / [ConfigOptions]: an object used as a map. *)
Abbreviation FetchOptions := (gmap string OptionValue).

(** The constructors that can be handed around as [factory]. The two
    subclasses declare no constructor of their own. *)
Inductive Factory :=
| SharePointQueryable
| SharePointQueryableCollection
| SharePointQueryableInstance.

(** An [SPBatch] object, known by its identity. *)
Definition SPBatch := nat.

Definition CachingOptions := string.

Record Node := mkNode {
  _class : Factory;
  _url : string;
  _parentUrl : string;
  _query : ref;
  _options : FetchOptions;
  _useCaching : bool;
  _cachingOptions : option CachingOptions;
  _batch : option SPBatch
}.

Definition set_url (u : string) (n : Node) : Node :=
  mkNode (_class n) u (_parentUrl n) (_query n) (_options n)
         (_useCaching n) (_cachingOptions n) (_batch n).

Definition set_parentUrl (u : string) (n : Node) : Node :=
  mkNode (_class n) (_url n) u (_query n) (_options n)
         (_useCaching n) (_cachingOptions n) (_batch n).

Definition set_options (o : FetchOptions) (n : Node) : Node :=
  mkNode (_class n) (_url n) (_parentUrl n) (_query n) o
         (_useCaching n) (_cachingOptions n) (_batch n).

Definition set_batch (b : option SPBatch) (n : Node) : Node :=
  mkNode (_class n) (_url n) (_parentUrl n) (_query n) (_options n)
         (_useCaching n) (_cachingOptions n) b.

(** Modelled from the spec: [mergeOptions] of [@pnp/common] is not part of
    the sources. The spec describes the merge of [source] into [target] as
    a shallow overlay in which the values of [source] take precedence. The
    result is the new content of the [target] object. *)
Definition mergeOptions (target source : FetchOptions) : FetchOptions :=
  source ∪ target.

(** Modelled from the spec: the constructor of the base class
    [ODataQueryable] of [@pnp/odata], run by [super()], is not part of the
    sources. A fresh node has an accumulator of its own with no entry, no
    option, no batch, and caching is off. *)
Definition ODataQueryable_new (cls : Factory) : M Node :=
  q ← new_Dictionary;
  mret (mkNode cls EmptyString EmptyString q ∅ false None None).

(** Modelled from the spec: accessors of [ODataQueryable]. *)
Definition toUrl (this : Node) : string := _url this.
Definition query (this : Node) : ref := _query this.
Definition parentUrl (this : Node) : string := _parentUrl this.
Definition batch (this : Node) : option SPBatch := _batch this.
Definition hasBatch (this : Node) : bool :=
  match _batch this with Some _ => true | None => false end.

(** Modelled from the spec: [configure] overlays the given options on the
    node's own and answers the node. *)
Definition configure (options : FetchOptions) (this : Node) : Node :=
  set_options (mergeOptions (_options this) options) this.

(** Modelled from the spec: [inBatch] associates the node with a batch and
    answers the node. *)
Definition inBatch (b : option SPBatch) (this : Node) : Node :=
  set_batch b this.

(** Modelled from the spec: [extend(target, source, noOverwrite)] of
    [@pnp/common] is not part of the sources, and the spec gives it no
    contract of its own. It assigns the own properties of [source] to
    [target] and answers [target]; with [noOverwrite] a property that
    [target] already has is left alone. A node owns every one of its
    fields from its construction on (the methods of the class read
    [_query], [_url] and [_options] of a node built from a string), so
    with [noOverwrite] each field keeps the value [target] has, and without
    it each field takes the value of [source], objects by reference. The
    class of [target] is no property and stays. *)
Definition assigned {A} (noOverwrite owned : bool) (mine theirs : A) : A :=
  if noOverwrite && owned then mine else theirs.

Definition extend (target source : Node) (noOverwrite : bool) : M Node :=
  mret (mkNode (_class target)
          (assigned noOverwrite true (_url target) (_url source))
          (assigned noOverwrite true (_parentUrl target) (_parentUrl source))
          (assigned noOverwrite true (_query target) (_query source))
          (assigned noOverwrite true (_options target) (_options source))
          (assigned noOverwrite true (_useCaching target) (_useCaching source))
          (assigned noOverwrite true (_cachingOptions target)
             (_cachingOptions source))
          (assigned noOverwrite true (_batch target) (_batch source))).

(** What a template literal prints for a value that may be null. *)
Definition toDisplay (v : option string) : string :=
  match v with
  | Some s => s
  | None => "null"
  end.

(** The first argument of the constructor: [string | SharePointQueryable]. *)
Inductive BaseUrl :=
| BaseString (s : string)
| BaseNode (n : Node).

(** ** Calls to the collaborators *)

(** The functions that release a batch dependency, known by identity:
    the literal [() => { return; }] and the ones a batch hands out. *)
Inductive ReleaseFn :=
| NoOp
| BatchRelease (token : nat).

(** How a promise settles. *)
Inductive Settled (A : Type) :=
| Resolved (a : A)
| Rejected (reason : string).
Arguments Resolved {A} a.
Arguments Rejected {A} reason.

(** The calls that leave the class: [this.addBatchDependency()] of the base
    class, on a node whose batch is [batch]; [toAbsoluteUrl(candidate)],
    answered by the way its promise settles; [getGUID()]. *)
Inductive Call : Type -> Type :=
| AddBatchDependency (batch : option SPBatch) : Call ReleaseFn
| ToAbsoluteUrl (candidate : string) : Call (Settled string)
| GetGUID : Call string.

(** A computation that calls out; [Ask c k] makes the call [c] and goes on
    with [k] once it is answered. *)
Inductive Prog (A : Type) : Type :=
| Done (a : A)
| Ask {X : Type} (c : Call X) (k : X -> Prog A).
Arguments Done {A} a.
Arguments Ask {A X} c k.

Fixpoint Prog_bind {A B} (k : A -> Prog B) (p : Prog A) : Prog B :=
  match p with
  | Done a => k a
  | Ask c k' => Ask c (fun x => Prog_bind k (k' x))
  end.

Inductive Event :=
| EvAddBatchDependency (batch : option SPBatch) (answer : ReleaseFn)
| EvToAbsoluteUrl (candidate : string) (answer : Settled string)
| EvGetGUID (answer : string).

Definition event {X} (c : Call X) : X -> Event :=
  match c with
  | AddBatchDependency b => EvAddBatchDependency b
  | ToAbsoluteUrl u => EvToAbsoluteUrl u
  | GetGUID => EvGetGUID
  end.

(** The collaborators, with a state [W] of their own. *)
Definition Handler (W : Type) : Type := forall X, Call X -> W -> X * W.

(** Plays [p] against the collaborators; answers the calls made, in the
    order they were made, with the result. *)
Fixpoint run {W A} (handle : Handler W) (p : Prog A) (w : W)
  : list Event * A * W :=
  match p with
  | Done a => ([], a, w)
  | Ask c k =>
      let (x, w1) := handle _ c w in
      let '(trace, a, w2) := run handle (k x) w1 in
      (event c x :: trace, a, w2)
  end.

Definition isAddBatchDependency (e : Event) : bool :=
  match e with EvAddBatchDependency _ _ => true | _ => false end.

Definition isToAbsoluteUrl (e : Event) : bool :=
  match e with EvToAbsoluteUrl _ _ => true | _ => false end.

Definition ODataParser := nat.
Definition PipelineStage := nat.

Inductive ClientFactory := NewSPHttpClient.

Record RequestContext := mkRequestContext {
  ctx_batch : option SPBatch;
  batchDependency : ReleaseFn;
  cachingOptions : option CachingOptions;
  clientFactory : ClientFactory;
  isBatched : bool;
  isCached : bool;
  options : FetchOptions;
  parser : ODataParser;
  pipeline : list PipelineStage;
  requestAbsoluteUrl : string;
  requestId : string;
  verb : string
}.

(** ** Sample data *)

Module Sample.

Fixpoint dropLeadingSeparators (s : string) : string :=
  match s with
  | String "/" s' => dropLeadingSeparators s'
  | _ => s
  end.

Fixpoint dropTrailingSeparators (s : string) : string :=
  match s with
  | EmptyString => EmptyString
  | String c s' =>
      match dropTrailingSeparators s' with
      | EmptyString => if Ascii.eqb c "/" then EmptyString else String c EmptyString
      | t => String c t
      end
  end.

(** Modelled from the spec: [combinePaths] of [@pnp/common] is not part of
    the sources. The spec describes [combine(a, b)] as concatenating two
    path segments with exactly one separator between them and ignoring an
    empty or absent [b]. *)
Definition combine (a : string) (b : option string) : string :=
  match b with
  | None => a
  | Some EmptyString => a
  | Some b => dropTrailingSeparators a +:+ "/" +:+ dropLeadingSeparators b
  end.

Fixpoint hasSchemeSeparator (s : string) : bool :=
  match s with
  | String ":" (String "/" (String "/" _)) => true
  | String _ s' => hasSchemeSeparator s'
  | EmptyString => false
  end.

(** Modelled from the spec: [isUrlAbsolute] of [@pnp/common] is not part
    of the sources. The spec describes an absolute URL as one that has a
    scheme and host. *)
Definition isAbsolute (s : string) : bool := hasSchemeSeparator s.

(** A heap with three accumulators, and a node on each. *)
Definition heap : Heap :=
  mkHeap [ [("$select", "Title,Id")];
           [("@target", "'https://tenant.example/sites/hr'");
            ("$filter", "Id gt 5")];
           [] ]
         [].

Definition tasks : Node :=
  mkNode SharePointQueryableCollection
    "_api/web/lists/getbytitle('!@p1::Some long value')/items"
    "_api/web/lists" 0%nat ∅ true None None.

Definition item : Node :=
  mkNode SharePointQueryableInstance
    "_api/web/lists/getbytitle('Tasks')/items(19)"
    "_api/web/lists/getbytitle('Tasks')/items" 1%nat
    {["credentials" := OptionString "same-origin"]} true None (Some 7%nat).

Definition lists : Node :=
  mkNode SharePointQueryableCollection "_api/web/lists" "_api/web" 2%nat
    ∅ false None None.

(** A list addressed by a title with a token and an item addressed by a
    token that lacks its second colon. *)
Definition mixed : Node :=
  mkNode SharePointQueryableInstance
    "_api/web/lists/getbytitle('!@p1::Tasks')/items('!@p2:19')"
    "_api/web/lists/getbytitle('!@p1::Tasks')" 0%nat ∅ false None None.

(** A list addressed by a title of two lines: the value of the token
    holds a line feed. *)
Definition twoLines : Node :=
  mkNode SharePointQueryableCollection
    ("_api/web/lists/getbytitle('!@p1::Tasks" +:+ String "010" "2019')/items")
    "_api/web/lists" 2%nat ∅ false None None.

(** Collaborators that hand out the release function [BatchRelease 1],
    resolve every URL against one site and count their answers. *)
Definition collaborators : Handler nat :=
  fun X c =>
    match c in Call X return nat -> X * nat with
    | AddBatchDependency _ => fun w => (BatchRelease 1, S w)
    | ToAbsoluteUrl u => fun w => (Resolved ("https://tenant.example/" +:+ u), S w)
    | GetGUID => fun w => ("guid", S w)
    end.

(** Whole numbers printed in decimal, for [toString] on a number. *)
Definition decimal (n : Z) : string := NilZero.string_of_int (Z.to_int n).

(** Collaborators that reject every resolution. *)
Definition offline : Handler nat :=
  fun X c =>
    match c in Call X return nat -> X * nat with
    | AddBatchDependency _ => fun w => (BatchRelease 1, S w)
    | ToAbsoluteUrl u => fun w => (Rejected "offline", S w)
    | GetGUID => fun w => ("guid", S w)
    end.

End Sample.

(** ** The classes *)

Section SharePointQueryable.

(** [combinePaths(a, b)] and [isUrlAbsolute(url)] of [@pnp/common]. A
    [path] that is [undefined] or [null] is [None]. *)
Variable combinePaths : string -> option string -> string.
Variable isUrlAbsolute : string -> bool.

(** Modelled from the spec: the method [extend] of [ODataQueryable] is not
    part of the sources. The spec has the new node take the URL of
    [parent] as its base and copy the query and options of [parent] by
    value. *)
Definition ODataQueryable_extend (this parent : Node) (path : option string)
  : M Node :=
  dict_merge (_query this) (_query parent);;
  mret (set_options (mergeOptions (_options this) (_options parent))
          (set_url (combinePaths (_url parent) path)
             (set_parentUrl (_url parent) this))).

(** [new factory(baseUrl, path)] *)
Definition construct (factory : Factory) (baseUrl : BaseUrl)
    (path : option string) : M Node :=
  this ← ODataQueryable_new factory;
  match baseUrl with
  | BaseString baseUrl =>
      if isUrlAbsolute baseUrl || (JsString.lastIndexOf baseUrl "/" <? 0) then
        mret (set_url (combinePaths baseUrl path) (set_parentUrl baseUrl this))
      else if JsString.lastIndexOf baseUrl "/" >? JsString.lastIndexOf baseUrl "(" then
        let index := JsString.lastIndexOf baseUrl "/" in
        let this := set_parentUrl (JsString.slice baseUrl 0 (Some index)) this in
        let path := Some (combinePaths (JsString.slice baseUrl index None) path) in
        mret (set_url (combinePaths (_parentUrl this) path) this)
      else
        let index := JsString.lastIndexOf baseUrl "(" in
        let this := set_parentUrl (JsString.slice baseUrl 0 (Some index)) this in
        mret (set_url (combinePaths baseUrl path) this)
  | BaseNode baseUrl =>
      this ← ODataQueryable_extend this baseUrl path;
      target ← dict_get (_query baseUrl) "@target";
      match target with
      | Some target => dict_add (_query this) "@target" target
      | None => mret tt
      end;;
      mret this
  end.

(** [this.as(factory)] *)
Definition as_ (this : Node) (factory : Factory) : M Node :=
  o ← construct factory (BaseString (_url this)) None;
  extend o this true.

(** The replacer of [toUrlAndQuery]. *)
Definition rewriteAlias (aliasedParams : ref)
    (match_ labelName value : string) : M string :=
  Logger_write ("Rewriting aliased parameter from match " +:+ match_
                +:+ " to label: " +:+ labelName
                +:+ " value: " +:+ value) Verbose;;
  dict_add aliasedParams labelName ("'" +:+ value +:+ "'");;
  mret labelName.

(** [this.toUrlAndQuery()] *)
Definition toUrlAndQuery (this : Node) : M string :=
  aliasedParams ← new_Dictionary;
  url ← AliasRegExp.replace (toUrl this) (rewriteAlias aliasedParams);
  dict_merge aliasedParams (_query this);;
  count ← dict_count aliasedParams;
  if (0 <? count)%nat then
    keys ← dict_getKeys aliasedParams;
    pairs ← mapM (fun key =>
                    v ← dict_get aliasedParams key;
                    mret (key +:+ "=" +:+ toDisplay v)) keys;
    mret (url +:+ "?" +:+ JsString.join "&" pairs)
  else
    mret url.

(** [this.getParent(factory, baseUrl, path, batch)]; an argument left out
    is [None], and [baseUrl] then defaults to [this.parentUrl]. *)
Definition getParent (this : Node) (factory : Factory)
    (baseUrl : option BaseUrl) (path : option string)
    (batch : option SPBatch) : M Node :=
  let baseUrl := default (BaseString (parentUrl this)) baseUrl in
  parent ← construct factory baseUrl path;
  let parent := configure (_options this) parent in
  target ← dict_get (query this) "@target";
  match target with
  | Some target => dict_add (query parent) "@target" target
  | None => mret tt
  end;;
  mret (match batch with
        | Some b => inBatch (Some b) parent
        | None => parent
        end).

(** [this.clone(factory, additionalPath, includeBatch)]; [includeBatch]
    defaults to [true]. *)
Definition clone (this : Node) (factory : Factory)
    (additionalPath : option string) (includeBatch : option bool) : M Node :=
  let includeBatch := default true includeBatch in
  clone ← construct factory (BaseNode this) additionalPath;
  let clone := configure (_options this) clone in
  target ← dict_get (query this) "@target";
  match target with
  | Some target => dict_add (query clone) "@target" target
  | None => mret tt
  end;;
  mret (if includeBatch && hasBatch this
        then inBatch (batch this) clone
        else clone).

(** [this.toRequestContext(verb, options, parser, pipeline)]. The promise
    it answers is the continuation of the call to [toAbsoluteUrl]: it
    settles with the context, or with the rejection of the resolution. *)
Definition toRequestContext (this : Node) (verb : string)
    (options : option FetchOptions) (parser : ODataParser)
    (pipeline : list PipelineStage) (h : Heap)
  : Prog (Settled RequestContext * Heap) :=
  let options := default ∅ options in
  Prog_bind (fun dependencyDispose =>
    let (candidate, h) := toUrlAndQuery this h in
    Ask (ToAbsoluteUrl candidate) (fun settled =>
      match settled with
      | Rejected reason => Done (Rejected reason, h)
      | Resolved url =>
          let options := mergeOptions options (_options this) in
          Ask GetGUID (fun guid =>
            Done (Resolved
                    (mkRequestContext (batch this) dependencyDispose
                       (_cachingOptions this) NewSPHttpClient (hasBatch this)
                       (GetRegExp.test verb && _useCaching this)
                       options parser pipeline url guid verb), h))
      end))
    (if hasBatch this
     then Ask (AddBatchDependency (batch this)) Done
     else Done NoOp).

(** *** SharePointQueryableCollection *)

Definition Collection_filter (this : Node) (filter : string) : M Node :=
  dict_add (_query this) "$filter" filter;;
  mret this.

Definition Collection_select (this : Node) (selects : list string) : M Node :=
  (if (0 <? length selects)%nat
   then dict_add (_query this) "$select" (JsString.join "," selects)
   else mret tt);;
  mret this.

Definition Collection_expand (this : Node) (expands : list string) : M Node :=
  (if (0 <? length expands)%nat
   then dict_add (_query this) "$expand" (JsString.join "," expands)
   else mret tt);;
  mret this.

(** [ascending] left out is [None] and defaults to [true]. *)
Definition Collection_orderBy (this : Node) (orderBy : string)
    (ascending : option bool) : M Node :=
  let ascending := default true ascending in
  keys ← dict_getKeys (_query this);
  query ← mapM (fun k => dict_get (_query this) k)
               (List.filter (fun k => String.eqb k "$orderby") keys);
  let query :=
    query ++ [Some (orderBy +:+ " " +:+ (if ascending then "asc" else "desc"))] in
  dict_add (_query this) "$orderby" (JsString.joinNullable "," query);;
  mret this.

(** *** SharePointQueryableInstance *)

Definition Instance_select (this : Node) (selects : list string) : M Node :=
  (if (0 <? length selects)%nat
   then dict_add (_query this) "$select" (JsString.join "," selects)
   else mret tt);;
  mret this.

Definition Instance_expand (this : Node) (expands : list string) : M Node :=
  (if (0 <? length expands)%nat
   then dict_add (_query this) "$expand" (JsString.join "," expands)
   else mret tt);;
  mret this.

End SharePointQueryable.

(** *** Paging on a collection *)

Section Paging.

(** The numbers of JavaScript and [n.toString()]. *)
Variable number : Type.
Variable Number_toString : number -> string.

Definition Collection_skip (this : Node) (skip : number) : M Node :=
  dict_add (_query this) "$skip" (Number_toString skip);;
  mret this.

Definition Collection_top (this : Node) (top : number) : M Node :=
  dict_add (_query this) "$top" (Number_toString top);;
  mret this.

End Paging.

(** ** Vocabulary of the statements *)

(** The node's accumulator is an object of the heap. *)
Definition allocated (h : Heap) (n : Node) : Prop :=
  (_query n < length (dicts h))%nat.

(** A dictionary holds every key once. *)
Definition keyUnique (d : Dictionary.t) : Prop := NoDup (Dictionary.getKeys d).

(** Every accumulator of the heap holds every key once. *)
Definition heapUnique (h : Heap) : Prop := Forall keyUnique (dicts h).

(** The keys of [ks] in the order in which each is first seen. *)
Fixpoint firstSeen (ks : list string) : list string :=
  match ks with
  | [] => []
  | k :: ks' => k :: List.filter (fun k' => negb (String.eqb k' k)) (firstSeen ks')
  end.

(** The aliased-parameter token ['!@label::value'], [label] including
    its [@]. *)
Definition token (label value : string) : string :=
  "'!" +:+ label +:+ "::" +:+ value +:+ "'".

(** A URL cut into stretches of plain text, each followed by a token, and
    a last stretch of plain text. *)
Definition Segments : Type := list (string * string * string).

Fixpoint render (segs : Segments) (tail : string) : string :=
  match segs with
  | [] => tail
  | (text, label, value) :: segs' =>
      text +:+ token label value +:+ render segs' tail
  end.

(** The URL body after the rewrite: the bare label for each token. *)
Fixpoint rewritten (segs : Segments) (tail : string) : string :=
  match segs with
  | [] => tail
  | (text, label, value) :: segs' => text +:+ label +:+ rewritten segs' tail
  end.

(** The aliases registered for the tokens, from left to right: each label
    with its value wrapped in single quotes. *)
Definition aliasPairs (segs : Segments) : list (string * string) :=
  map (fun seg => (snd (fst seg), "'" +:+ snd seg +:+ "'")) segs.

Definition aliases (segs : Segments) : Dictionary.t :=
  fold_left (fun d kv => Dictionary.add (fst kv) (snd kv) d)
            (aliasPairs segs) Dictionary.empty.

Definition labels (segs : Segments) : list string :=
  map (fun seg => snd (fst seg)) segs.

(** [s] begins with ['!@]. *)
Definition opensHere (s : string) : bool :=
  match s with
  | String a (String b (String c _)) =>
      Ascii.eqb a "'" && Ascii.eqb b "!" && Ascii.eqb c "@"
  | _ => false
  end.

(** ['!@] begins somewhere in [s]. *)
Fixpoint opensToken (s : string) : bool :=
  match s with
  | EmptyString => false
  | String _ s' => opensHere s || opensToken s'
  end.

Fixpoint allChars (p : ascii -> bool) (s : string) : bool :=
  match s with
  | EmptyString => true
  | String c s' => p c && allChars p s'
  end.

(** [::] begins at the head of [s]; begins somewhere in [s]. *)
Definition separatorHere (s : string) : bool :=
  match s with
  | String a (String b _) => Ascii.eqb a ":" && Ascii.eqb b ":"
  | _ => false
  end.

Fixpoint hasSeparator (s : string) : bool :=
  match s with
  | EmptyString => false
  | String _ s' => separatorHere s || hasSeparator s'
  end.

(** A label is [@] and then characters other than line terminators that
    hold no [::] and do not end in a colon, so that the first [::] from the
    label on is the one that follows it. A value holds no quote and no line
    terminator. *)
Definition isLabel (l : string) : bool :=
  match l with
  | String "@" l' =>
      allChars (fun c => negb (AliasRegExp.isLineTerminator c)) l'
      && negb (hasSeparator (l' +:+ ":"))
  | _ => false
  end.

Definition isValue (v : string) : bool :=
  allChars (fun c => negb (Ascii.eqb c "'")
                     && negb (AliasRegExp.isLineTerminator c)) v.

Definition wellFormed (segs : Segments) (tail : string) : Prop :=
  Forall (fun seg => opensToken (fst (fst seg)) = false
                     /\ isLabel (snd (fst seg)) = true
                     /\ isValue (snd seg) = true) segs
  /\ opensToken tail = false.

(** A token stands at the head of [s]. *)
Definition tokenAhead (s : string) : Prop :=
  exists label value rest,
    isLabel label = true /\ isValue value = true
    /\ s = token label value +:+ rest.

(** No token begins within the text [t] when [after] follows it. *)
Fixpoint inert (t after : string) : Prop :=
  match t with
  | EmptyString => True
  | String _ t' => ~ tokenAhead (t +:+ after) /\ inert t' after
  end.

(** The cut of a URL that reading from left to right makes: no token
    begins within a stretch of text, whatever the text holds, and each
    token is a label and a value. What is not a token (a quote that is
    never closed, a single colon, a line feed in the value) is text. *)
Fixpoint scanned (segs : Segments) (tail : string) : Prop :=
  match segs with
  | [] => inert tail EmptyString
  | (text, label, value) :: segs' =>
      inert text (token label value +:+ render segs' tail)
      /\ isLabel label = true /\ isValue value = true
      /\ scanned segs' tail
  end.

(** The pattern matches at a position of [t] when [after] follows it. *)
Fixpoint matchesWithin (t after : string) : bool :=
  match t with
  | EmptyString => false
  | String _ t' =>
      match AliasRegExp.exec (t +:+ after) with
      | Some _ => true
      | None => matchesWithin t' after
      end
  end.

(** The query string for the pairs of [d]. *)
Definition queryString (d : Dictionary.t) : string :=
  match d with
  | [] => EmptyString
  | _ => "?" +:+ JsString.join "&" (map (fun kv => fst kv +:+ "=" +:+ snd kv) d)
  end.

(** ASCII lower case. *)
Definition lowerChar (c : ascii) : ascii :=
  let n := nat_of_ascii c in
  if ((65 <=? n) && (n <=? 90))%nat then ascii_of_nat (n + 32) else c.

Fixpoint lower (s : string) : string :=
  match s with
  | EmptyString => EmptyString
  | String c s' => String (lowerChar c) (lower s')
  end.

(** What [toUrlAndQuery] computes from the URL alone, as functions of the
    text: the body after the rewrite, the dictionary of aliases and the
    log lines. [skip] is as in [AliasRegExp.replace_from]. *)
Fixpoint replaced (s : string) (skip : nat) : string :=
  match s with
  | EmptyString => EmptyString
  | String c s' =>
      match skip with
      | S k => replaced s' k
      | O =>
          match AliasRegExp.exec s with
          | Some m =>
              AliasRegExp.labelName m
              +:+ replaced s' (String.length (AliasRegExp.whole m) - 1)%nat
          | None => String c (replaced s' 0%nat)
          end
      end
  end.

Fixpoint registered (s : string) (skip : nat) (d : Dictionary.t)
  : Dictionary.t :=
  match s with
  | EmptyString => d
  | String c s' =>
      match skip with
      | S k => registered s' k d
      | O =>
          match AliasRegExp.exec s with
          | Some m =>
              registered s' (String.length (AliasRegExp.whole m) - 1)%nat
                (Dictionary.add (AliasRegExp.labelName m)
                   ("'" +:+ AliasRegExp.value m +:+ "'") d)
          | None => registered s' 0%nat d
          end
      end
  end.

Fixpoint written (s : string) (skip : nat) : list (LogLevel * string) :=
  match s with
  | EmptyString => []
  | String c s' =>
      match skip with
      | S k => written s' k
      | O =>
          match AliasRegExp.exec s with
          | Some m =>
              (Verbose,
               "Rewriting aliased parameter from match " +:+ AliasRegExp.whole m
               +:+ " to label: " +:+ AliasRegExp.labelName m
               +:+ " value: " +:+ AliasRegExp.value m)
              :: written s' (String.length (AliasRegExp.whole m) - 1)%nat
          | None => written s' 0%nat
          end
      end
  end.

(** The [key=value] texts [toUrlAndQuery] builds from a dictionary. *)
Definition pairsOf (d : Dictionary.t) : list string :=
  map (fun key => key +:+ "=" +:+ toDisplay (Dictionary.get key d))
      (Dictionary.getKeys d).

(** The parameters [toUrlAndQuery] serialises: the aliases found in the
    URL, then the accumulator merged in. *)
Definition serialised (url : string) (accumulator : Dictionary.t)
  : Dictionary.t :=
  Dictionary.merge accumulator (registered url 0%nat Dictionary.empty).

(** The line [toUrlAndQuery] logs for a token. *)
Definition logLine (seg : string * string * string) : LogLevel * string :=
  (Verbose,
   "Rewriting aliased parameter from match " +:+ token (snd (fst seg)) (snd seg)
   +:+ " to label: " +:+ snd (fst seg) +:+ " value: " +:+ snd seg).

(** The clause [orderBy(field, ascending)] writes. *)
Definition clause (call : string * option bool) : string :=
  fst call +:+ " " +:+ match snd call with
                       | Some false => "desc"
                       | _ => "asc"
                       end.

(** [orderBy] called once per element of [calls], each on the node the
    previous call answered. *)
Fixpoint orderBys (this : Node) (calls : list (string * option bool)) : M Node :=
  match calls with
  | [] => mret this
  | call :: calls' =>
      n ← Collection_orderBy this (fst call) (snd call);
      orderBys n calls'
  end.

(** The URLs handed to [toAbsoluteUrl] and the ids [getGUID] answered, in
    the order of the trace. *)
Definition candidates (trace : list Event) : list string :=
  flat_map (fun e => match e with
                     | EvToAbsoluteUrl candidate _ => [candidate]
                     | _ => []
                     end) trace.

Definition guids (trace : list Event) : list string :=
  flat_map (fun e => match e with
                     | EvGetGUID guid => [guid]
                     | _ => []
                     end) trace.

(** The verbs [/^get$/i] accepts. *)
Definition getVerbs : list string :=
  ["get"; "geT"; "gEt"; "gET"; "Get"; "GeT"; "GEt"; "GET"].

(** ** Strings *)

Lemma append_nil_r (s : string) : s +:+ EmptyString = s.
Proof. induction s as [|c s IH]; simpl; [reflexivity | now rewrite IH]. Qed.

Lemma append_assoc (a b c : string) : (a +:+ b) +:+ c = a +:+ b +:+ c.
Proof. induction a as [|x a IH]; simpl; [reflexivity | now rewrite IH]. Qed.

Lemma length_append (a b : string) :
  String.length (a +:+ b) = (String.length a + String.length b)%nat.
Proof. induction a as [|x a IH]; simpl; [reflexivity | now rewrite IH]. Qed.

Lemma substring_whole (s : string) :
  String.substring 0 (String.length s) s = s.
Proof. induction s as [|c s IH]; simpl; [reflexivity | now rewrite IH]. Qed.

Lemma substring_prefix (p r : string) :
  String.substring 0 (String.length p) (p +:+ r) = p.
Proof.
  induction p as [|c p IH]; simpl.
  - destruct r; reflexivity.
  - now rewrite IH.
Qed.

Lemma substring_suffix (p r : string) :
  String.substring (String.length p) (String.length r) (p +:+ r) = r.
Proof.
  induction p as [|c p IH]; simpl; [apply substring_whole | exact IH].
Qed.

Lemma clampIndex_inside (len i : Z) :
  0 <= i <= len -> JsString.clampIndex len i = i.
Proof.
  intros H. unfold JsString.clampIndex.
  destruct (Z.ltb_spec i 0); lia.
Qed.

Lemma slice_prefix (p r : string) :
  JsString.slice (p +:+ r) 0 (Some (Z.of_nat (String.length p))) = p.
Proof.
  unfold JsString.slice. rewrite length_append.
  rewrite !clampIndex_inside by lia.
  replace (Z.to_nat (Z.max _ 0)) with (String.length p) by lia.
  apply substring_prefix.
Qed.

Lemma slice_suffix (p r : string) :
  JsString.slice (p +:+ r) (Z.of_nat (String.length p)) None = r.
Proof.
  unfold JsString.slice. rewrite length_append.
  rewrite !clampIndex_inside by lia.
  replace (Z.to_nat (Z.max _ 0)) with (String.length r) by lia.
  rewrite Nat2Z.id. apply substring_suffix.
Qed.

(** [lastIndexOf] splits the string at the last occurrence, if any. *)
Lemma lastIndexOf_from_absent (s : string) (c : ascii) (i acc : Z) :
  JsString.occurs c s = false -> JsString.lastIndexOf_from s c i acc = acc.
Proof.
  revert i acc. induction s as [|a s IH]; intros i acc H; simpl in *.
  - reflexivity.
  - apply orb_false_iff in H as [Ha Hs]. rewrite Ha. now apply IH.
Qed.

Lemma lastIndexOf_from_present (s : string) (c : ascii) (i acc : Z) :
  JsString.occurs c s = true ->
  exists p t, s = p +:+ String c t /\ JsString.occurs c t = false
              /\ JsString.lastIndexOf_from s c i acc = i + Z.of_nat (String.length p).
Proof.
  revert i acc. induction s as [|a s IH]; intros i acc H; simpl in *.
  - discriminate.
  - destruct (JsString.occurs c s) eqn:Hs.
    + destruct (IH (i + 1) (if Ascii.eqb a c then i else acc) eq_refl)
        as (p & t & -> & Ht & Hi).
      exists (String a p), t. simpl. repeat split; [assumption|]. 
      rewrite Hi. lia.
    + rewrite orb_false_r in H. apply Ascii.eqb_eq in H as ->.
      exists EmptyString, s. simpl. rewrite Ascii.eqb_refl.
      repeat split; [assumption|].
      rewrite lastIndexOf_from_absent by assumption. lia.
Qed.

Lemma lastIndexOf_absent (s : string) (c : ascii) :
  JsString.occurs c s = false -> JsString.lastIndexOf s c = -1.
Proof. apply lastIndexOf_from_absent. Qed.

Lemma lastIndexOf_present (s : string) (c : ascii) :
  JsString.occurs c s = true ->
  exists p t, s = p +:+ String c t /\ JsString.occurs c t = false
              /\ JsString.lastIndexOf s c = Z.of_nat (String.length p).
Proof.
  intros H. destruct (lastIndexOf_from_present s c 0 (-1) H) as (p & t & ? & ? & ?).
  exists p, t. repeat split; assumption.
Qed.

Lemma lastIndexOf_negative (s : string) (c : ascii) :
  JsString.lastIndexOf s c < 0 <-> JsString.occurs c s = false.
Proof.
  split; intros H.
  - destruct (JsString.occurs c s) eqn:Ho; [|reflexivity].
    destruct (lastIndexOf_present s c Ho) as (p & t & _ & _ & Hi). lia.
  - rewrite lastIndexOf_absent by assumption. lia.
Qed.

Lemma lastIndexOf_from_split (p t : string) (c : ascii) (i acc : Z) :
  JsString.occurs c t = false ->
  JsString.lastIndexOf_from (p +:+ String c t) c i acc
  = i + Z.of_nat (String.length p).
Proof.
  intros Ht. revert i acc. induction p as [|a p IH]; intros i acc; simpl.
  - rewrite Ascii.eqb_refl, lastIndexOf_from_absent by assumption. lia.
  - rewrite IH. lia.
Qed.

Lemma lastIndexOf_split (p t : string) (c : ascii) :
  JsString.occurs c t = false ->
  JsString.lastIndexOf (p +:+ String c t) c = Z.of_nat (String.length p).
Proof. intros Ht. unfold JsString.lastIndexOf. now rewrite lastIndexOf_from_split. Qed.

(** ** The constructor on a string *)

Section Constructor.

Variable combinePaths : string -> option string -> string.
Variable isUrlAbsolute : string -> bool.


(** C2. For a base string [b] that is an absolute URL or holds no [/], and
    any optional suffix [p], the node constructed from [(b, p)] has
    [parentUrl = b] and [url = combinePaths(b, p)]. *)
Theorem construct_absolute_or_flat
    (factory : Factory) (b : string) (p : option string) (h : Heap) :
  isUrlAbsolute b = true \/ JsString.occurs "/" b = false ->
  let n := fst (construct combinePaths isUrlAbsolute factory (BaseString b) p h) in
  _parentUrl n = b /\ _url n = combinePaths b p.
Proof.
  intros H. unfold construct, ODataQueryable_new, mbind, M_bind, mret, M_ret.
  simpl.
  assert (Hc : isUrlAbsolute b || (JsString.lastIndexOf b "/" <? 0) = true).
  { destruct H as [-> | H]; [reflexivity|].
    apply orb_true_iff. right. apply Z.ltb_lt.
    now apply lastIndexOf_negative. }
  rewrite Hc. simpl. split; reflexivity.
Qed.

(** C1. For a base string [b] that is not absolute and holds a [/], the
    constructor compares the position of the last [/] with that of the
    last [(]. When the last [/] comes after the last [(], [b] splits at its
    last [/] into [parentUrl], the text before it, and the trailing
    segment made of that [/] and the text [seg] after it;
    [url = combinePaths(parentUrl, combinePaths(trailing segment, path))].
    Otherwise [b] splits at its last [(]: [parentUrl] is the text before
    it and [url = combinePaths(b, path)], indexer included. *)
Theorem construct_relative
    (factory : Factory) (b : string) (p : option string) (h : Heap) :
  isUrlAbsolute b = false ->
  JsString.occurs "/" b = true ->
  let n := fst (construct combinePaths isUrlAbsolute factory (BaseString b) p h) in
  (JsString.lastIndexOf b "/" > JsString.lastIndexOf b "(" ->
   exists seg,
     b = _parentUrl n +:+ "/" +:+ seg
     /\ JsString.occurs "/" seg = false
     /\ JsString.occurs "(" seg = false
     /\ _url n = combinePaths (_parentUrl n)
                   (Some (combinePaths ("/" +:+ seg) p)))
  /\ (JsString.lastIndexOf b "/" <= JsString.lastIndexOf b "(" ->
      exists indexer,
        b = _parentUrl n +:+ "(" +:+ indexer
        /\ JsString.occurs "(" indexer = false
        /\ JsString.occurs "/" indexer = false
        /\ _url n = combinePaths b p).
Proof.
  intros Habs Hsep.
  unfold construct, ODataQueryable_new, mbind, M_bind, mret, M_ret. simpl.
  rewrite Habs. simpl.
  destruct (lastIndexOf_present b "/" Hsep) as (q & t & Hb & Ht & Hi).
  destruct (Z.ltb_spec (JsString.lastIndexOf b "/") 0) as [Hneg|_]; [lia|].
  split; intros Hcmp.
  - destruct (Z.gtb_spec (JsString.lastIndexOf b "/") (JsString.lastIndexOf b "("))
      as [_|Hle]; [|lia].
    simpl. rewrite Hi. exists t.
    assert (Hparen : JsString.occurs "(" t = false).
    { destruct (JsString.occurs "(" t) eqn:Hp; [exfalso|reflexivity].
      destruct (lastIndexOf_present t "(" Hp) as (p1 & t1 & Ht1 & Hno & _).
      assert (Hb' : b = (q +:+ "/" +:+ p1) +:+ String "(" t1).
      { rewrite Hb, Ht1. rewrite !append_assoc. reflexivity. }
      rewrite Hb' in Hcmp at 2.
      rewrite (lastIndexOf_split _ _ _ Hno), Hi, !length_append in Hcmp.
      simpl in Hcmp. lia. }
    subst b. rewrite slice_prefix, slice_suffix.
    repeat split; assumption || reflexivity.
  - destruct (Z.gtb_spec (JsString.lastIndexOf b "/") (JsString.lastIndexOf b "("))
      as [Hgt|_]; [lia|].
    simpl.
    assert (Hocc : JsString.occurs "(" b = true).
    { destruct (JsString.occurs "(" b) eqn:Ho; [reflexivity|].
      rewrite (lastIndexOf_absent b "(" Ho) in Hcmp. lia. }
    destruct (lastIndexOf_present b "(" Hocc) as (p2 & t2 & Hb2 & Hno2 & Hi2).
    rewrite Hi2. exists t2.
    assert (Hslash : JsString.occurs "/" t2 = false).
    { destruct (JsString.occurs "/" t2) eqn:Hs; [exfalso|reflexivity].
      destruct (lastIndexOf_present t2 "/" Hs) as (p3 & t3 & Ht3 & Hno3 & _).
      assert (Hb' : b = (p2 +:+ "(" +:+ p3) +:+ String "/" t3).
      { rewrite Hb2, Ht3. rewrite !append_assoc. reflexivity. }
      rewrite Hb' in Hcmp at 1.
      rewrite (lastIndexOf_split _ _ _ Hno3), Hi2, !length_append in Hcmp.
      simpl in Hcmp. lia. }
    assert (Hpre : JsString.slice b 0 (Some (Z.of_nat (String.length p2))) = p2)
      by (rewrite Hb2 at 1; apply slice_prefix).
    rewrite Hpre.
    repeat split; assumption || reflexivity.
Qed.

End Constructor.

(** ** The heap *)

Lemma deref_insert_eq (h : Heap) (r : ref) (d : Dictionary.t) lg :
  (r < length (dicts h))%nat ->
  deref (mkHeap (<[r := d]> (dicts h)) lg) r = d.
Proof.
  intros Hr. unfold deref. simpl. now rewrite list_lookup_insert_eq.
Qed.

Lemma deref_insert_ne (h : Heap) (r r' : ref) (d : Dictionary.t) lg :
  r <> r' -> deref (mkHeap (<[r := d]> (dicts h)) lg) r' = deref h r'.
Proof.
  intros Hr. unfold deref. simpl. now rewrite list_lookup_insert_ne.
Qed.

Lemma deref_alloc_old (h : Heap) (r : ref) (d : Dictionary.t) lg :
  (r < length (dicts h))%nat ->
  deref (mkHeap (dicts h ++ [d]) lg) r = deref h r.
Proof.
  intros Hr. unfold deref. simpl. now rewrite lookup_app_l.
Qed.

Lemma deref_alloc_new (h : Heap) (d : Dictionary.t) lg :
  deref (mkHeap (dicts h ++ [d]) lg) (length (dicts h)) = d.
Proof.
  unfold deref. simpl. now rewrite list_lookup_middle.
Qed.

Lemma deref_logged (ds : list Dictionary.t) lg lg' (r : ref) :
  deref (mkHeap ds lg) r = deref (mkHeap ds lg') r.
Proof. reflexivity. Qed.

Lemma insert_deref (h : Heap) (r : ref) :
  <[r := deref h r]> (dicts h) = dicts h.
Proof.
  apply list_insert_id'. intros Hr. unfold deref.
  destruct (lookup_lt_is_Some_2 (dicts h) r Hr) as [d Hd]. rewrite Hd. reflexivity.
Qed.

Lemma mbind_run {A B} (m : M A) (k : A -> M B) (h : Heap) :
  (m ≫= k) h = let (a, h') := m h in k a h'.
Proof. reflexivity. Qed.

Lemma mret_run {A} (a : A) (h : Heap) : (mret a : M A) h = (a, h).
Proof. reflexivity. Qed.

Lemma dict_add_run (r : ref) (k v : string) (h : Heap) :
  dict_add r k v h
  = (tt, mkHeap (<[r := Dictionary.add k v (deref h r)]> (dicts h)) (logged h)).
Proof. reflexivity. Qed.

Lemma dict_get_run (r : ref) (k : string) (h : Heap) :
  dict_get r k h = (Dictionary.get k (deref h r), h).
Proof. reflexivity. Qed.

Lemma mapM_dict_get {B} (r : ref) (f : string -> option string -> B)
    (keys : list string) (h : Heap) :
  mapM (fun key => v ← dict_get r key; mret (f key v)) keys h
  = (map (fun key => f key (Dictionary.get key (deref h r))) keys, h).
Proof.
  induction keys as [|k keys IH]; [reflexivity|].
  cbn [mapM map]. rewrite !mbind_run. unfold dict_get at 1.
  rewrite mret_run, mbind_run, IH. reflexivity.
Qed.

(** *** The rewrite of aliased parameters *)

Lemma rewriteAlias_run (r : ref) (m l v : string) (h : Heap) :
  rewriteAlias r m l v h
  = (l, mkHeap (<[r := Dictionary.add l ("'" +:+ v +:+ "'") (deref h r)]> (dicts h))
               (logged h ++ [(Verbose,
                              "Rewriting aliased parameter from match " +:+ m
                              +:+ " to label: " +:+ l +:+ " value: " +:+ v)])).
Proof. reflexivity. Qed.

Lemma replace_from_rewriteAlias (s : string) (skip : nat) (r : ref) (h : Heap) :
  (r < length (dicts h))%nat ->
  AliasRegExp.replace_from s skip (rewriteAlias r) h
  = (replaced s skip,
     mkHeap (<[r := registered s skip (deref h r)]> (dicts h))
            (logged h ++ written s skip)).
Proof.
  revert skip h. induction s as [|c s IH]; intros skip h Hr.
  - simpl. unfold mret, M_ret. rewrite insert_deref, app_nil_r.
    destruct h; reflexivity.
  - destruct skip as [|k].
    + cbn [AliasRegExp.replace_from replaced registered written].
      destruct (AliasRegExp.exec (String c s)) as [m|].
      * rewrite mbind_run, rewriteAlias_run, mbind_run.
        rewrite IH by (simpl; rewrite length_insert; exact Hr).
        rewrite mret_run. simpl dicts. simpl logged.
        rewrite deref_insert_eq by exact Hr.
        rewrite list_insert_insert_eq, <- app_assoc. reflexivity.
      * rewrite mbind_run, IH by exact Hr. reflexivity.
    + simpl. apply IH, Hr.
Qed.

Lemma toUrlAndQuery_run (this : Node) (h : Heap) :
  allocated h this ->
  toUrlAndQuery this h
  = (let params := serialised (_url this) (deref h (_query this)) in
     replaced (_url this) 0%nat
     +:+ (if (0 <? Dictionary.count params)%nat
          then "?" +:+ JsString.join "&" (pairsOf params)
          else EmptyString),
     mkHeap (dicts h ++ [serialised (_url this) (deref h (_query this))])
            (logged h ++ written (_url this) 0%nat)).
Proof.
  intros Hq. unfold allocated in Hq.
  unfold toUrlAndQuery, AliasRegExp.replace, toUrl.
  rewrite mbind_run. unfold new_Dictionary at 1. cbv beta iota.
  rewrite mbind_run.
  rewrite replace_from_rewriteAlias
    by (simpl; rewrite length_app; simpl; lia).
  rewrite deref_alloc_new. cbv beta iota.
  rewrite mbind_run. unfold dict_merge at 1, update at 1. cbv beta iota.
  simpl dicts. simpl logged.
  rewrite (deref_insert_eq (mkHeap (dicts h ++ [Dictionary.empty]) (logged h)))
    by (simpl; rewrite length_app; simpl; lia).
  rewrite list_insert_insert_eq.
  replace (deref _ (_query this)) with (deref h (_query this)).
  2:{ rewrite (deref_insert_ne (mkHeap (dicts h ++ [Dictionary.empty]) (logged h)))
        by lia.
      symmetry. now apply deref_alloc_old. }
  change (Dictionary.merge (deref h (_query this))
            (registered (_url this) 0%nat Dictionary.empty))
    with (serialised (_url this) (deref h (_query this))).
  set (params := serialised (_url this) (deref h (_query this))).
  assert (Hins : <[length (dicts h) := params]> (dicts h ++ [Dictionary.empty])
                 = dicts h ++ [params]).
  { replace (length (dicts h)) with (length (dicts h) + 0)%nat at 1 by lia.
    rewrite insert_app_r. reflexivity. }
  rewrite Hins.
  rewrite mbind_run. unfold dict_count at 1. cbv beta iota.
  rewrite deref_alloc_new.
  destruct (0 <? Dictionary.count params)%nat.
  - rewrite mbind_run. unfold dict_getKeys at 1. cbv beta iota.
    rewrite mbind_run, mapM_dict_get, !deref_alloc_new, mret_run.
    reflexivity.
  - rewrite mret_run, append_nil_r. reflexivity.
Qed.

(** C9. Two calls of [toUrlAndQuery] in a row, with nothing done to the
    node in between, give the same string, and a call leaves every
    accumulator that was in the heap, the node's own included, as it
    was: same keys, same values, same order. *)
Theorem toUrlAndQuery_twice (this : Node) (h : Heap) :
  allocated h this ->
  let (s1, h1) := toUrlAndQuery this h in
  let (s2, h2) := toUrlAndQuery this h1 in
  s1 = s2
  /\ deref h1 (_query this) = deref h (_query this)
  /\ deref h2 (_query this) = deref h (_query this)
  /\ (forall r : ref, (r < length (dicts h))%nat ->
        deref h1 r = deref h r /\ deref h2 r = deref h r).
Proof.
  intros Hq. rewrite (toUrlAndQuery_run this h Hq).
  set (h1 := mkHeap _ _).
  assert (Hold : forall r : ref, (r < length (dicts h))%nat ->
                   deref h1 r = deref h r).
  { intros r Hr. now apply deref_alloc_old. }
  assert (Hq1 : allocated h1 this).
  { unfold allocated, h1 in *. simpl. rewrite length_app. simpl. lia. }
  rewrite (toUrlAndQuery_run this h1 Hq1).
  set (h2 := mkHeap _ _).
  assert (Hold2 : forall r : ref, (r < length (dicts h))%nat ->
                    deref h2 r = deref h r).
  { intros r Hr. unfold h2. rewrite deref_alloc_old.
    - now apply Hold.
    - unfold h1. simpl. rewrite length_app. simpl. lia. }
  rewrite (Hold _ Hq). repeat split; auto.
Qed.

(** ** The fluent modifiers *)

(** C10. [select()] and [expand()] without arguments change nothing in
    the heap, so no accumulator gains or loses a key or a value, and
    answer the node they were called on; this holds on collections and
    on instances alike. *)
Theorem select_expand_nothing (this : Node) (h : Heap) :
  Collection_select this [] h = (this, h)
  /\ Collection_expand this [] h = (this, h)
  /\ Instance_select this [] h = (this, h)
  /\ Instance_expand this [] h = (this, h).
Proof. repeat split. Qed.

(** ** The dictionary *)

Lemma get_add_eq (k v : string) (d : Dictionary.t) :
  Dictionary.get k (Dictionary.add k v d) = Some v.
Proof.
  induction d as [|[k0 v0] d IH]; simpl.
  - now rewrite String.eqb_refl.
  - destruct (String.eqb_spec k0 k) as [->|Hne]; simpl.
    + now rewrite String.eqb_refl.
    + destruct (String.eqb_spec k0 k); [contradiction | exact IH].
Qed.

Lemma get_add_ne (k k' v : string) (d : Dictionary.t) :
  k <> k' -> Dictionary.get k' (Dictionary.add k v d) = Dictionary.get k' d.
Proof.
  intros Hne. induction d as [|[k0 v0] d IH]; simpl.
  - destruct (String.eqb_spec k k'); [contradiction | reflexivity].
  - destruct (String.eqb_spec k0 k) as [->|Hk0]; simpl.
    + destruct (String.eqb_spec k k'); [contradiction | reflexivity].
    + destruct (String.eqb_spec k0 k'); [reflexivity | exact IH].
Qed.

Lemma get_None_keys (k : string) (d : Dictionary.t) :
  Dictionary.get k d = None <-> ~ In k (Dictionary.getKeys d).
Proof.
  induction d as [|[k0 v0] d IH]; simpl.
  - tauto.
  - destruct (String.eqb_spec k0 k) as [->|Hne].
    + split; [discriminate | intros H; exfalso; apply H; now left].
    + rewrite IH. tauto.
Qed.

Lemma get_Some_keys (k : string) (d : Dictionary.t) :
  (exists v, Dictionary.get k d = Some v) <-> In k (Dictionary.getKeys d).
Proof.
  destruct (Dictionary.get k d) as [v|] eqn:Hg.
  - split; [intros _ | intros _; now exists v].
    destruct (in_dec string_dec k (Dictionary.getKeys d)) as [|Hn]; [assumption|].
    apply get_None_keys in Hn. congruence.
  - split; [intros [v Hv]; discriminate|].
    intros Hin. apply get_None_keys in Hg. contradiction.
Qed.

(** [add] keeps the place of a key that is there and puts a new key last. *)
Lemma getKeys_add_present (k v : string) (d : Dictionary.t) :
  In k (Dictionary.getKeys d) ->
  Dictionary.getKeys (Dictionary.add k v d) = Dictionary.getKeys d.
Proof.
  induction d as [|[k0 v0] d IH]; simpl; [tauto|].
  intros Hin. destruct (String.eqb_spec k0 k) as [->|Hne]; simpl.
  - reflexivity.
  - f_equal. apply IH. destruct Hin; [contradiction | assumption].
Qed.

Lemma getKeys_add_absent (k v : string) (d : Dictionary.t) :
  ~ In k (Dictionary.getKeys d) ->
  Dictionary.getKeys (Dictionary.add k v d) = Dictionary.getKeys d ++ [k].
Proof.
  induction d as [|[k0 v0] d IH]; simpl; [reflexivity|].
  intros Hin. destruct (String.eqb_spec k0 k) as [->|Hne]; simpl.
  - exfalso. apply Hin. now left.
  - f_equal. apply IH. tauto.
Qed.

Lemma add_absent (k v : string) (d : Dictionary.t) :
  Dictionary.get k d = None -> Dictionary.add k v d = d ++ [(k, v)].
Proof.
  induction d as [|[k0 v0] d IH]; simpl; [reflexivity|].
  destruct (String.eqb_spec k0 k) as [->|Hne]; [discriminate|].
  intros H. now rewrite IH.
Qed.

Lemma keyUnique_empty : keyUnique Dictionary.empty.
Proof. constructor. Qed.

Lemma keyUnique_add (k v : string) (d : Dictionary.t) :
  keyUnique d -> keyUnique (Dictionary.add k v d).
Proof.
  unfold keyUnique. intros Hd.
  destruct (in_dec string_dec k (Dictionary.getKeys d)) as [Hin|Hnin].
  - now rewrite getKeys_add_present.
  - rewrite getKeys_add_absent by assumption.
    apply NoDup_app. repeat split; [assumption | | repeat constructor].
    + intros x Hx Hx'. apply list_elem_of_In in Hx, Hx'.
      destruct Hx' as [<-|[]]. contradiction.
    + intros H. apply list_elem_of_In in H. destruct H.
Qed.

Lemma keyUnique_fold (pairs : list (string * string)) (d : Dictionary.t) :
  keyUnique d ->
  keyUnique (fold_left (fun acc kv => Dictionary.add (fst kv) (snd kv) acc) pairs d).
Proof.
  revert d. induction pairs as [|[k v] pairs IH]; intros d Hd; simpl.
  - assumption.
  - apply IH, keyUnique_add, Hd.
Qed.

Lemma get_fold_absent (pairs : list (string * string)) (k : string)
    (d : Dictionary.t) :
  ~ In k (map fst pairs) ->
  Dictionary.get k (fold_left (fun acc kv => Dictionary.add (fst kv) (snd kv) acc)
                              pairs d)
  = Dictionary.get k d.
Proof.
  revert d. induction pairs as [|[k0 v0] pairs IH]; intros d Hk; simpl in *.
  - reflexivity.
  - rewrite IH by tauto. apply get_add_ne. intros ->. apply Hk. now left.
Qed.

(** After a merge the value of a key is the one of the source, where the
    source has the key. *)
Lemma get_merge (source target : Dictionary.t) (k : string) :
  keyUnique source ->
  Dictionary.get k (Dictionary.merge source target)
  = match Dictionary.get k source with
    | Some v => Some v
    | None => Dictionary.get k target
    end.
Proof.
  unfold Dictionary.merge, keyUnique.
  revert target. induction source as [|[k0 v0] source IH]; intros target Hu; simpl.
  - reflexivity.
  - apply NoDup_cons in Hu as [Hk0 Hu]. rewrite list_elem_of_In in Hk0.
    destruct (String.eqb_spec k0 k) as [->|Hne].
    + rewrite get_fold_absent by exact Hk0. apply get_add_eq.
    + rewrite IH by assumption.
      destruct (Dictionary.get k source); [reflexivity|].
      now apply get_add_ne.
Qed.

Lemma pairsOf_unique (d : Dictionary.t) :
  keyUnique d ->
  pairsOf d = map (fun kv => fst kv +:+ "=" +:+ snd kv) d.
Proof.
  unfold pairsOf, keyUnique, Dictionary.getKeys.
  induction d as [|[k v] d IH]; intros Hu; cbn [map]; [reflexivity|].
  apply NoDup_cons in Hu as [Hk Hu]. rewrite list_elem_of_In in Hk.
  cbn [fst snd Dictionary.get]. rewrite String.eqb_refl. cbn [toDisplay].
  f_equal. rewrite <- IH by assumption.
  apply map_ext_in. intros k' Hk'.
  destruct (String.eqb_spec k k') as [->|_]; [contradiction | reflexivity].
Qed.

Lemma mapM_dict_get_plain (r : ref) (keys : list string) (h : Heap) :
  mapM (fun k => dict_get r k) keys h
  = (map (fun k => Dictionary.get k (deref h r)) keys, h).
Proof.
  induction keys as [|k keys IH]; [reflexivity|].
  cbn [mapM map]. rewrite mbind_run. unfold dict_get at 1.
  rewrite mbind_run, IH. reflexivity.
Qed.

Lemma filter_key_absent (keys : list string) (x : string) :
  ~ In x keys -> List.filter (fun k => String.eqb k x) keys = [].
Proof.
  induction keys as [|k keys IH]; intros Hx; simpl; [reflexivity|].
  destruct (String.eqb_spec k x) as [->|_].
  - exfalso. apply Hx. now left.
  - apply IH. intros H. apply Hx. now right.
Qed.

Lemma filter_key_present (keys : list string) (x : string) :
  NoDup keys -> In x keys -> List.filter (fun k => String.eqb k x) keys = [x].
Proof.
  induction keys as [|k keys IH]; intros Hu Hx; simpl; [destruct Hx|].
  apply NoDup_cons in Hu as [Hk Hu]. rewrite list_elem_of_In in Hk.
  destruct (String.eqb_spec k x) as [->|Hne].
  - now rewrite filter_key_absent.
  - apply IH; [assumption|]. destruct Hx; [contradiction | assumption].
Qed.

Lemma orderBy_run (this : Node) (field : string) (ascending : option bool)
    (h : Heap) :
  keyUnique (deref h (_query this)) ->
  Collection_orderBy this field ascending h
  = (this,
     let clause := field +:+ " "
                   +:+ (if default true ascending then "asc" else "desc") in
     mkHeap (<[_query this :=
                 Dictionary.add "$orderby"
                   (match Dictionary.get "$orderby" (deref h (_query this)) with
                    | Some old => old +:+ "," +:+ clause
                    | None => clause
                    end) (deref h (_query this))]> (dicts h))
            (logged h)).
Proof.
  intros Hu. unfold Collection_orderBy.
  rewrite mbind_run. unfold dict_getKeys at 1. cbv beta iota.
  rewrite mbind_run, mapM_dict_get_plain.
  destruct (Dictionary.get "$orderby" (deref h (_query this))) as [old|] eqn:Hg.
  - rewrite filter_key_present;
      [|exact Hu | apply get_Some_keys; now exists old].
    cbn [map]. rewrite Hg. reflexivity.
  - rewrite filter_key_absent by (now apply get_None_keys).
    reflexivity.
Qed.

Lemma replaced_no_match (s : string) :
  AliasRegExp.hasMatch s = false ->
  replaced s 0%nat = s
  /\ (forall d, registered s 0%nat d = d)
  /\ written s 0%nat = [].
Proof.
  induction s as [|c s IH]; intros H; [repeat split|].
  cbn [AliasRegExp.hasMatch] in H.
  cbn [replaced registered written].
  destruct (AliasRegExp.exec (String c s)); [discriminate|].
  destruct (IH H) as (-> & Hr & ->). repeat split. exact Hr.
Qed.

(** C7. Every [orderBy(field, ascending)] answers the node it was called
    on and stores under [$orderby] the value that was there, a comma and
    the clause [field asc] ([ascending] true or left out) or [field desc]
    ([ascending] false); with no earlier value the clause alone. The key
    keeps its place and the other entries are as they were. In particular
    [orderBy("Title")] followed by [orderBy("Created", false)] on a node
    without parameters serialises as [$orderby=Title asc,Created desc]. *)
Theorem orderBy_appends (this : Node) (field : string)
    (ascending : option bool) (h : Heap) :
  allocated h this ->
  keyUnique (deref h (_query this)) ->
  let before := deref h (_query this) in
  let clause := field +:+ " "
                +:+ match ascending with
                    | Some false => "desc"
                    | _ => "asc"
                    end in
  (let (n, h') := Collection_orderBy this field ascending h in
   n = this
   /\ deref h' (_query this)
      = Dictionary.add "$orderby"
          (match Dictionary.get "$orderby" before with
           | Some old => old +:+ "," +:+ clause
           | None => clause
           end) before)
  /\ (let (n1, h1) := Collection_orderBy this "Title" None h in
      let (n2, h2) := Collection_orderBy n1 "Created" (Some false) h1 in
      (Dictionary.get "$orderby" before = None ->
       Dictionary.get "$orderby" (deref h2 (_query n2))
       = Some "Title asc,Created desc")
      /\ (before = Dictionary.empty ->
          AliasRegExp.hasMatch (_url this) = false ->
          fst (toUrlAndQuery n2 h2)
          = _url this +:+ "?$orderby=Title asc,Created desc")).
Proof.
  intros Hq Hu before clause. split.
  - rewrite orderBy_run by exact Hu. split; [reflexivity|].
    rewrite deref_insert_eq by exact Hq.
    subst clause. destruct ascending as [[|]|]; reflexivity.
  - rewrite orderBy_run by exact Hu.
    set (h1 := mkHeap _ _).
    assert (Hd1 : deref h1 (_query this)
                  = Dictionary.add "$orderby"
                      (match Dictionary.get "$orderby" before with
                       | Some old => old +:+ "," +:+ "Title asc"
                       | None => "Title asc"
                       end) before).
    { unfold h1. now rewrite deref_insert_eq. }
    assert (Hq1 : allocated h1 this).
    { unfold allocated, h1 in *. simpl. now rewrite length_insert. }
    rewrite orderBy_run by (rewrite Hd1; now apply keyUnique_add).
    set (h2 := mkHeap _ _).
    assert (Hq2 : allocated h2 this).
    { unfold allocated, h2 in *. simpl. now rewrite length_insert. }
    assert (Hd2 : deref h2 (_query this)
                  = Dictionary.add "$orderby"
                      (match Dictionary.get "$orderby" (deref h1 (_query this)) with
                       | Some old => old +:+ "," +:+ "Created desc"
                       | None => "Created desc"
                       end) (deref h1 (_query this))).
    { unfold h2. now rewrite deref_insert_eq. }
    split.
    + intros Hnone. rewrite Hd2, get_add_eq, Hd1, get_add_eq, Hnone.
      reflexivity.
    + intros Hempty Hno.
      rewrite (toUrlAndQuery_run this h2 Hq2). cbn [fst].
      destruct (replaced_no_match _ Hno) as (Hbody & Hreg & _).
      unfold serialised. rewrite Hbody, Hreg, Hd2, Hd1, Hempty.
      reflexivity.
Qed.

(** *** Key uniqueness is an invariant of the heap *)

Lemma keyUnique_deref (h : Heap) (r : ref) :
  heapUnique h -> keyUnique (deref h r).
Proof.
  intros Hh. unfold deref.
  destruct (dicts h !! r) as [d|] eqn:Hd; simpl.
  - exact (proj1 (Forall_lookup _ _) Hh r d Hd).
  - apply keyUnique_empty.
Qed.

Lemma heapUnique_update (r : ref) (f : Dictionary.t -> Dictionary.t) (h : Heap) :
  heapUnique h ->
  (forall d, keyUnique d -> keyUnique (f d)) ->
  heapUnique (snd (update r f h)).
Proof.
  intros Hh Hf. unfold heapUnique, update. simpl.
  apply Forall_insert; [exact Hh|]. apply Hf, keyUnique_deref, Hh.
Qed.

Lemma heapUnique_add (r : ref) (k v : string) (h : Heap) :
  heapUnique h -> heapUnique (snd (dict_add r k v h)).
Proof.
  intros Hh. apply heapUnique_update; [exact Hh|].
  intros d. apply keyUnique_add.
Qed.

Lemma heapUnique_orderBy (this : Node) (field : string)
    (ascending : option bool) (h : Heap) :
  heapUnique h -> heapUnique (snd (Collection_orderBy this field ascending h)).
Proof.
  intros Hh. rewrite orderBy_run by (apply keyUnique_deref, Hh).
  cbn [snd]. apply Forall_insert; [exact Hh|].
  apply keyUnique_add, keyUnique_deref, Hh.
Qed.

Lemma heapUnique_select (this : Node) (selects : list string) (h : Heap) :
  heapUnique h -> heapUnique (snd (Collection_select this selects h)).
Proof.
  intros Hh. unfold Collection_select.
  destruct (0 <? length selects)%nat; [|exact Hh].
  rewrite mbind_run, dict_add_run. cbn [snd mret M_ret].
  apply (heapUnique_add _ _ _ _ Hh).
Qed.

Lemma keyUnique_registered (s : string) (skip : nat) (d : Dictionary.t) :
  keyUnique d -> keyUnique (registered s skip d).
Proof.
  revert skip d. induction s as [|c s IH]; intros skip d Hd; [exact Hd|].
  destruct skip as [|k]; cbn [registered]; [|now apply IH].
  destruct (AliasRegExp.exec (String c s)); apply IH; [|exact Hd].
  now apply keyUnique_add.
Qed.

Lemma heapUnique_toUrlAndQuery (this : Node) (h : Heap) :
  allocated h this ->
  heapUnique h -> heapUnique (snd (toUrlAndQuery this h)).
Proof.
  intros Hq Hh. rewrite (toUrlAndQuery_run this h Hq). cbn [snd].
  unfold heapUnique. cbn [dicts]. apply Forall_app. split; [exact Hh|].
  constructor; [|constructor].
  apply keyUnique_fold, keyUnique_registered, keyUnique_empty.
Qed.

(** ** The pattern on well-formed tokens *)

Lemma exec_opens (s : string) (m : AliasRegExp.Match) :
  AliasRegExp.exec s = Some m -> exists r, s = "'!@" +:+ r.
Proof.
  unfold AliasRegExp.exec.
  destruct s as [|c1 [|c2 [|c3 s3]]]; intros H.
  - discriminate.
  - destruct c1 as [[] [] [] [] [] [] [] []]; discriminate.
  - destruct c1 as [[] [] [] [] [] [] [] []]; try discriminate.
    destruct c2 as [[] [] [] [] [] [] [] []]; discriminate.
  - destruct c1 as [[] [] [] [] [] [] [] []]; try discriminate.
    destruct c2 as [[] [] [] [] [] [] [] []]; try discriminate.
    destruct c3 as [[] [] [] [] [] [] [] []]; try discriminate.
    exists s3. reflexivity.
Qed.

Lemma exec_text (t R : string) :
  opensToken t = false ->
  t <> EmptyString ->
  R = EmptyString \/ (exists R', R = String "'" R') ->
  AliasRegExp.exec (t +:+ R) = None.
Proof.
  intros Ht Hne HR.
  destruct (AliasRegExp.exec (t +:+ R)) as [m|] eqn:E; [exfalso|reflexivity].
  apply exec_opens in E as [r E].
  destruct t as [|c1 t1]; [congruence|].
  simpl in E. injection E as -> E.
  destruct t1 as [|c2 t2].
  - simpl in E. destruct HR as [->|[R' ->]]; discriminate.
  - simpl in E. injection E as -> E.
    destruct t2 as [|c3 t3].
    + simpl in E. destruct HR as [->|[R' ->]]; discriminate.
    + simpl in E. injection E as -> E. simpl in Ht. discriminate.
Qed.

Lemma lazyValue_value (v r : string) :
  isValue v = true ->
  AliasRegExp.lazyValue (v +:+ String "'" r) = Some (v, r).
Proof.
  unfold isValue. induction v as [|c v IH]; intros H; simpl.
  - reflexivity.
  - simpl in H. apply andb_true_iff in H as [Hc Hv].
    apply andb_true_iff in Hc as [Hq Hl].
    apply negb_true_iff in Hq, Hl. rewrite Hq, Hl, IH by assumption.
    reflexivity.
Qed.

Lemma lazyLabel_step (c d : ascii) (s : string) :
  Ascii.eqb c ":" && Ascii.eqb d ":" = false ->
  AliasRegExp.lazyLabel (String c (String d s))
  = if AliasRegExp.isLineTerminator c then None
    else match AliasRegExp.lazyLabel (String d s) with
         | Some (l, v, r) => Some (String c l, v, r)
         | None => None
         end.
Proof.
  intros Hc.
  destruct c as [[] [] [] [] [] [] [] []]; try reflexivity.
  destruct d as [[] [] [] [] [] [] [] []]; try discriminate; reflexivity.
Qed.

Lemma lazyLabel_label (l v r : string) :
  allChars (fun c => negb (AliasRegExp.isLineTerminator c)) l = true ->
  hasSeparator (l +:+ ":") = false ->
  isValue v = true ->
  AliasRegExp.lazyLabel (l +:+ "::" +:+ v +:+ String "'" r) = Some (l, v, r).
Proof.
  intros Hl Hsep Hv. induction l as [|c l IH].
  - change (EmptyString +:+ "::" +:+ v +:+ String "'" r)
      with (String ":" (String ":" (v +:+ String "'" r))).
    cbn [AliasRegExp.lazyLabel].
    rewrite lazyValue_value by assumption. reflexivity.
  - cbn [allChars] in Hl. apply andb_true_iff in Hl as [Hterm Hl].
    apply negb_true_iff in Hterm.
    change (String c l +:+ ":") with (String c (l +:+ ":")) in Hsep.
    cbn [hasSeparator] in Hsep. apply orb_false_iff in Hsep as [Hhere Hsep].
    specialize (IH Hl Hsep).
    change (String c l +:+ "::" +:+ v +:+ String "'" r)
      with (String c (l +:+ "::" +:+ v +:+ String "'" r)).
    destruct l as [|d l'].
    + change (EmptyString +:+ "::" +:+ v +:+ String "'" r)
        with (String ":" (String ":" (v +:+ String "'" r))) in *.
      rewrite lazyLabel_step by exact Hhere.
      rewrite Hterm, IH. reflexivity.
    + change (String d l' +:+ "::" +:+ v +:+ String "'" r)
        with (String d (l' +:+ "::" +:+ v +:+ String "'" r)) in *.
      rewrite lazyLabel_step by exact Hhere.
      rewrite Hterm, IH. reflexivity.
Qed.

Lemma exec_token (l v r : string) :
  isLabel l = true -> isValue v = true ->
  AliasRegExp.exec (token l v +:+ r)
  = Some (AliasRegExp.mkMatch (token l v) l v r).
Proof.
  intros Hl Hv. unfold isLabel in Hl.
  destruct l as [|c l']; [discriminate|].
  destruct c as [[] [] [] [] [] [] [] []]; try discriminate.
  apply andb_true_iff in Hl as [Hl Hsep]. apply negb_true_iff in Hsep.
  unfold token.
  replace (("'!" +:+ String "@" l' +:+ "::" +:+ v +:+ "'") +:+ r)
    with (String "'" (String "!" (String "@"
            (l' +:+ "::" +:+ v +:+ String "'" r)))).
  2:{ rewrite !append_assoc. reflexivity. }
  unfold AliasRegExp.exec. rewrite lazyLabel_label by assumption.
  reflexivity.
Qed.

Lemma replaced_skip (w R : string) :
  replaced (w +:+ R) (String.length w) = replaced R 0%nat
  /\ forall d, registered (w +:+ R) (String.length w) d = registered R 0%nat d.
Proof.
  induction w as [|c w IH]; [split; reflexivity|].
  destruct IH as [IH1 IH2]. split; [exact IH1 | exact IH2].
Qed.

Lemma replaced_token (l v R : string) :
  isLabel l = true -> isValue v = true ->
  replaced (token l v +:+ R) 0%nat = l +:+ replaced R 0%nat
  /\ forall d, registered (token l v +:+ R) 0%nat d
               = registered R 0%nat (Dictionary.add l ("'" +:+ v +:+ "'") d).
Proof.
  intros Hl Hv.
  pose proof (exec_token l v R Hl Hv) as Hex.
  set (w := "!" +:+ l +:+ "::" +:+ v +:+ "'").
  assert (Hw : token l v = String "'" w) by reflexivity.
  assert (Hlen : (String.length (token l v) - 1)%nat = String.length w)
    by (rewrite Hw; simpl; lia).
  rewrite Hw in Hex |- *.
  change (String "'" w +:+ R) with (String "'" (w +:+ R)) in *.
  cbn [replaced registered]. rewrite Hex. cbn [AliasRegExp.labelName
    AliasRegExp.whole AliasRegExp.value].
  rewrite <- Hw, Hlen.
  destruct (replaced_skip w R) as [-> Hreg]. split; [reflexivity|].
  intros d. apply Hreg.
Qed.

Lemma token_opens (l v R : string) :
  exists R', token l v +:+ R = String "'" R'.
Proof. eexists. reflexivity. Qed.

(** *** Order of the keys *)

Lemma filter_filter_comm {A} (p q : A -> bool) (l : list A) :
  List.filter p (List.filter q l) = List.filter q (List.filter p l).
Proof.
  induction l as [|x l IH]; simpl; [reflexivity|].
  destruct (p x) eqn:Hp, (q x) eqn:Hq; simpl; rewrite ?Hp, ?Hq, IH; reflexivity.
Qed.

Lemma filter_filter_same {A} (p : A -> bool) (l : list A) :
  List.filter p (List.filter p l) = List.filter p l.
Proof.
  induction l as [|x l IH]; simpl; [reflexivity|].
  destruct (p x) eqn:Hp; simpl; rewrite ?Hp, IH; reflexivity.
Qed.

Lemma filter_other_absent (k : string) (l : list string) :
  ~ In k l -> List.filter (fun k' => negb (String.eqb k' k)) l = l.
Proof.
  induction l as [|x l IH]; intros Hk; simpl; [reflexivity|].
  destruct (String.eqb_spec x k) as [->|_]; simpl.
  - exfalso. apply Hk. now left.
  - rewrite IH; [reflexivity|]. intros H. apply Hk. now right.
Qed.

Lemma firstSeen_unique (l : list string) : NoDup l -> firstSeen l = l.
Proof.
  induction 1 as [|x l Hx _ IH]; simpl; [reflexivity|].
  rewrite list_elem_of_In in Hx. rewrite IH, filter_other_absent by assumption.
  reflexivity.
Qed.

Lemma firstSeen_drop (k : string) (A B : list string) :
  List.filter (fun k' => negb (String.eqb k' k)) (firstSeen (A ++ k :: B))
  = List.filter (fun k' => negb (String.eqb k' k)) (firstSeen (A ++ B)).
Proof.
  induction A as [|a A IH]; simpl.
  - rewrite String.eqb_refl. simpl. apply filter_filter_same.
  - destruct (String.eqb_spec a k) as [->|Hne]; simpl.
    + rewrite !filter_filter_same. exact IH.
    + f_equal.
      rewrite (filter_filter_comm _ (fun k' => negb (String.eqb k' a))), IH.
      apply filter_filter_comm.
Qed.

Lemma firstSeen_again (k : string) (K X : list string) :
  In k K -> firstSeen (K ++ k :: X) = firstSeen (K ++ X).
Proof.
  induction K as [|a K IH]; intros Hk; simpl; [destruct Hk|].
  f_equal. destruct (string_dec a k) as [->|Hne].
  - apply firstSeen_drop.
  - rewrite IH; [reflexivity|]. destruct Hk; [contradiction | assumption].
Qed.

Lemma getKeys_fold (pairs : list (string * string)) (d : Dictionary.t) :
  keyUnique d ->
  Dictionary.getKeys
    (fold_left (fun acc kv => Dictionary.add (fst kv) (snd kv) acc) pairs d)
  = firstSeen (Dictionary.getKeys d ++ map fst pairs).
Proof.
  revert d. induction pairs as [|[k v] pairs IH]; intros d Hd; simpl.
  - rewrite app_nil_r. symmetry. now apply firstSeen_unique.
  - rewrite IH by now apply keyUnique_add.
    destruct (in_dec string_dec k (Dictionary.getKeys d)) as [Hin|Hnin].
    + rewrite getKeys_add_present, firstSeen_again by assumption. reflexivity.
    + rewrite getKeys_add_absent, <- app_assoc by assumption. reflexivity.
Qed.

Lemma labels_aliasPairs (segs : Segments) :
  map fst (aliasPairs segs) = labels segs.
Proof. unfold aliasPairs, labels. rewrite map_map. reflexivity. Qed.

Lemma queryString_pairs (d : Dictionary.t) :
  keyUnique d ->
  (if (0 <? Dictionary.count d)%nat
   then "?" +:+ JsString.join "&" (pairsOf d)
   else EmptyString)
  = queryString d.
Proof.
  intros Hu. rewrite pairsOf_unique by assumption.
  destruct d; reflexivity.
Qed.

(** ** Derived nodes *)

Section Derivation.

Variable combinePaths : string -> option string -> string.
Variable isUrlAbsolute : string -> bool.


(** A constructed node has a new accumulator; the older ones are as they
    were. From a string the new accumulator is empty. *)
Lemma construct_fresh (factory : Factory) (b : BaseUrl) (p : option string)
    (h : Heap) :
  let (n, h') := construct combinePaths isUrlAbsolute factory b p h in
  _query n = length (dicts h)
  /\ length (dicts h') = S (length (dicts h))
  /\ (forall r : ref, (r < length (dicts h))%nat -> deref h' r = deref h r)
  /\ (forall s, b = BaseString s -> deref h' (_query n) = Dictionary.empty).
Proof.
  unfold construct. rewrite mbind_run.
  unfold ODataQueryable_new at 1. rewrite mbind_run.
  unfold new_Dictionary at 1. cbv beta iota. rewrite mret_run.
  set (h1 := mkHeap (dicts h ++ [Dictionary.empty]) (logged h)).
  assert (Hold : forall r : ref, (r < length (dicts h))%nat ->
                   deref h1 r = deref h r)
    by (intros r Hr; now apply deref_alloc_old).
  assert (Hlen : length (dicts h1) = S (length (dicts h)))
    by (unfold h1; simpl; rewrite length_app; simpl; lia).
  assert (Hnew : deref h1 (length (dicts h)) = Dictionary.empty)
    by apply deref_alloc_new.
  destruct b as [s|parent].
  - destruct (isUrlAbsolute s || (JsString.lastIndexOf s "/" <? 0));
      [|destruct (JsString.lastIndexOf s "/" >? JsString.lastIndexOf s "(")];
      rewrite mret_run; cbn [_query set_url set_parentUrl]; auto.
  - rewrite mbind_run. unfold ODataQueryable_extend at 1.
    rewrite mbind_run. unfold dict_merge at 1, update at 1. cbv beta iota.
    rewrite mret_run. cbn [_query set_url set_parentUrl set_options].
    set (h2 := mkHeap _ _).
    assert (Hold2 : forall r : ref, (r < length (dicts h))%nat ->
                      deref h2 r = deref h r).
    { intros r Hr. unfold h2. rewrite deref_insert_ne by lia. now apply Hold. }
    assert (Hlen2 : length (dicts h2) = S (length (dicts h)))
      by (unfold h2; simpl; now rewrite length_insert).
    rewrite mbind_run, dict_get_run.
    destruct (Dictionary.get "@target" (deref h2 (_query parent))) as [t|].
    + rewrite mbind_run, dict_add_run, mret_run.
      cbn [_query set_url set_parentUrl set_options].
      split; [reflexivity|]. split; [simpl; now rewrite length_insert|].
      split; [|discriminate].
      intros r Hr. rewrite deref_insert_ne by lia. now apply Hold2.
    + rewrite mbind_run, !mret_run.
      cbn [_query set_url set_parentUrl set_options].
      split; [reflexivity|]. split; [assumption|]. split; [assumption|discriminate].
Qed.


End Derivation.

(** ** The request context *)

Lemma charMatches_g (c : ascii) :
  GetRegExp.charMatches "g" c = Ascii.eqb (lowerChar c) "g".
Proof. destruct c as [[] [] [] [] [] [] [] []]; reflexivity. Qed.

Lemma charMatches_e (c : ascii) :
  GetRegExp.charMatches "e" c = Ascii.eqb (lowerChar c) "e".
Proof. destruct c as [[] [] [] [] [] [] [] []]; reflexivity. Qed.

Lemma charMatches_t (c : ascii) :
  GetRegExp.charMatches "t" c = Ascii.eqb (lowerChar c) "t".
Proof. destruct c as [[] [] [] [] [] [] [] []]; reflexivity. Qed.

(** [/^get$/i] accepts the verbs that read [get] in lower case. *)
Lemma test_get (verb : string) :
  GetRegExp.test verb = true <-> lower verb = "get".
Proof.
  destruct verb as [|c1 [|c2 [|c3 [|c4 rest]]]]; simpl;
    try (split; discriminate).
  rewrite charMatches_g, charMatches_e, charMatches_t, !andb_true_iff.
  rewrite !Ascii.eqb_eq. split.
  - intros [[-> ->] ->]. reflexivity.
  - intros H. injection H as -> -> ->. repeat split.
Qed.

(** C5. When the node has a batch, the first call [toRequestContext]
    makes is the registration of a batch dependency, the
    second is the resolution of the absolute URL of [toUrlAndQuery()],
    and no registration or resolution follows; once the URL is resolved
    there is a context, and its [batchDependency] is the function the
    registration answered. When the node has no batch, no registration is
    made at all and [batchDependency] is the function that does
    nothing. *)
Theorem batch_dependency_first {W : Type} (handle : Handler W) (w : W)
    (this : Node) (verb : string) (options : option FetchOptions)
    (parser : ODataParser) (pipeline : list PipelineStage) (h : Heap) :
  let '(trace, (result, _), _) :=
    run handle (toRequestContext this verb options parser pipeline h) w in
  let candidate := fst (toUrlAndQuery this h) in
  match _batch this with
  | Some b =>
      let release := fst (handle _ (AddBatchDependency (Some b)) w) in
      exists settled rest,
        trace = EvAddBatchDependency (Some b) release
                :: EvToAbsoluteUrl candidate settled :: rest
        /\ List.filter isAddBatchDependency rest = []
        /\ List.filter isToAbsoluteUrl rest = []
        /\ match settled with
           | Resolved url =>
               exists ctx, result = Resolved ctx
                           /\ batchDependency ctx = release
                           /\ requestAbsoluteUrl ctx = url
           | Rejected reason => result = Rejected reason
           end
  | None =>
      exists settled rest,
        trace = EvToAbsoluteUrl candidate settled :: rest
        /\ List.filter isAddBatchDependency rest = []
        /\ List.filter isToAbsoluteUrl rest = []
        /\ match settled with
           | Resolved url =>
               exists ctx, result = Resolved ctx
                           /\ batchDependency ctx = NoOp
                           /\ requestAbsoluteUrl ctx = url
           | Rejected reason => result = Rejected reason
           end
  end.
Proof.
  unfold toRequestContext, hasBatch, batch.
  destruct (_batch this) as [b|]; cbn [Prog_bind run].
  - destruct (handle ReleaseFn (AddBatchDependency (Some b)) w) as [release w1].
    destruct (toUrlAndQuery this h) as [candidate h1]. cbn [run fst].
    destruct (handle _ (ToAbsoluteUrl candidate) w1) as [[url|reason] w2];
      cbn [run].
    + destruct (handle string GetGUID w2) as [guid w3]. cbn [event].
      exists (Resolved url), [EvGetGUID guid].
      repeat split. eexists. repeat split.
    + exists (Rejected reason), []. repeat split.
  - destruct (toUrlAndQuery this h) as [candidate h1]. cbn [run fst].
    destruct (handle _ (ToAbsoluteUrl candidate) w) as [[url|reason] w2];
      cbn [run].
    + destruct (handle string GetGUID w2) as [guid w3]. cbn [event].
      exists (Resolved url), [EvGetGUID guid].
      repeat split. eexists. repeat split.
    + exists (Rejected reason), []. repeat split.
Qed.

(** C6. The context [toRequestContext] builds has [isCached] true exactly
    when the verb is [GET] in any mix of cases and the node's
    [_useCaching] flag is set; for the verb [POST] it is false whatever
    the flag. The context exists unless the resolution of the URL was
    rejected. *)
Theorem cache_eligibility {W : Type} (handle : Handler W) (w : W)
    (this : Node) (verb : string) (options : option FetchOptions)
    (parser : ODataParser) (pipeline : list PipelineStage) (h : Heap) :
  let '(trace, (result, _), _) :=
    run handle (toRequestContext this verb options parser pipeline h) w in
  match result with
  | Resolved ctx =>
      (isCached ctx = true <-> lower verb = "get" /\ _useCaching this = true)
      /\ (verb = "POST" -> isCached ctx = false)
  | Rejected reason =>
      exists candidate, In (EvToAbsoluteUrl candidate (Rejected reason)) trace
  end.
Proof.
  unfold toRequestContext, hasBatch, batch.
  assert (Hiff : GetRegExp.test verb && _useCaching this = true
                 <-> lower verb = "get" /\ _useCaching this = true)
    by (rewrite andb_true_iff, test_get; reflexivity).
  assert (Hpost : verb = "POST" -> GetRegExp.test verb && _useCaching this = false)
    by (intros ->; reflexivity).
  destruct (_batch this) as [b|]; cbn [Prog_bind run].
  - destruct (handle ReleaseFn (AddBatchDependency (Some b)) w) as [release w1].
    destruct (toUrlAndQuery this h) as [candidate h1]. cbn [run].
    destruct (handle _ (ToAbsoluteUrl candidate) w1) as [[url|reason] w2];
      cbn [run].
    + destruct (handle string GetGUID w2) as [guid w3]. cbn [isCached].
      split; assumption.
    + exists candidate. right. left. reflexivity.
  - destruct (toUrlAndQuery this h) as [candidate h1]. cbn [run].
    destruct (handle _ (ToAbsoluteUrl candidate) w) as [[url|reason] w2];
      cbn [run].
    + destruct (handle string GetGUID w2) as [guid w3]. cbn [isCached].
      split; assumption.
    + exists candidate. left. reflexivity.
Qed.

(** C8. The [options] of the context are the options the caller passed
    (none at all when the argument is left out) overlaid with the node's
    own: a key the node has carries the node's value, any other key the
    caller's, and nothing else is there. The context exists unless the
    resolution of the URL was rejected. *)
Theorem options_overlay {W : Type} (handle : Handler W) (w : W)
    (this : Node) (verb : string) (supplied : option FetchOptions)
    (parser : ODataParser) (pipeline : list PipelineStage) (h : Heap) :
  let '(trace, (result, _), _) :=
    run handle (toRequestContext this verb supplied parser pipeline h) w in
  match result with
  | Resolved ctx =>
      forall key : string,
        options ctx !! key
        = match _options this !! key with
          | Some v => Some v
          | None => match supplied with
                    | Some o => o !! key
                    | None => None
                    end
          end
  | Rejected reason =>
      exists candidate, In (EvToAbsoluteUrl candidate (Rejected reason)) trace
  end.
Proof.
  unfold toRequestContext, hasBatch, batch.
  assert (Hov : forall key : string,
             mergeOptions (default ∅ supplied) (_options this) !! key
             = match _options this !! key with
               | Some v => Some v
               | None => match supplied with
                         | Some o => o !! key
                         | None => None
                         end
               end).
  { intros key. unfold mergeOptions. rewrite lookup_union.
    destruct (_options this !! key) as [v|]; simpl.
    - destruct (default ∅ supplied !! key); reflexivity.
    - destruct supplied as [o|]; simpl.
      + destruct (o !! key); reflexivity.
      + rewrite lookup_empty. reflexivity. }
  destruct (_batch this) as [b|]; cbn [Prog_bind run].
  - destruct (handle ReleaseFn (AddBatchDependency (Some b)) w) as [release w1].
    destruct (toUrlAndQuery this h) as [candidate h1]. cbn [run].
    destruct (handle _ (ToAbsoluteUrl candidate) w1) as [[url|reason] w2];
      cbn [run].
    + destruct (handle string GetGUID w2) as [guid w3]. cbn [options].
      exact Hov.
    + exists candidate. right. left. reflexivity.
  - destruct (toUrlAndQuery this h) as [candidate h1]. cbn [run].
    destruct (handle _ (ToAbsoluteUrl candidate) w) as [[url|reason] w2];
      cbn [run].
    + destruct (handle string GetGUID w2) as [guid w3]. cbn [options].
      exact Hov.
    + exists candidate. left. reflexivity.
Qed.
(** ** The statements at concrete inputs *)

Example construct_nested_property :
  let n := fst (construct Sample.combine Sample.isAbsolute SharePointQueryable
                  (BaseString "_api/web/lists/getbytitle('Tasks')/items(19)/fields")
                  None Sample.heap) in
  _parentUrl n = "_api/web/lists/getbytitle('Tasks')/items(19)"
  /\ _url n = "_api/web/lists/getbytitle('Tasks')/items(19)/fields".
Proof. vm_compute. split; reflexivity. Qed.

Example construct_indexer :
  let n := fst (construct Sample.combine Sample.isAbsolute SharePointQueryable
                  (BaseString "_api/web/lists/getbytitle('Tasks')/items(19)")
                  (Some "versions") Sample.heap) in
  _parentUrl n = "_api/web/lists/getbytitle('Tasks')/items"
  /\ _url n = "_api/web/lists/getbytitle('Tasks')/items(19)/versions".
Proof. vm_compute. split; reflexivity. Qed.

Example toUrlAndQuery_tasks :
  fst (toUrlAndQuery Sample.tasks Sample.heap)
  = "_api/web/lists/getbytitle(@p1)/items?@p1='Some long value'&$select=Title,Id".
Proof. vm_compute. reflexivity. Qed.

Example orderBy_twice_tasks :
  let (n1, h1) := Collection_orderBy Sample.tasks "Title" None Sample.heap in
  let (n2, h2) := Collection_orderBy n1 "Created" (Some false) h1 in
  fst (toUrlAndQuery n2 h2)
  = "_api/web/lists/getbytitle(@p1)/items?@p1='Some long value'&$select=Title,Id&$orderby=Title asc,Created desc".
Proof. vm_compute. reflexivity. Qed.

Example unterminated_token_stays :
  AliasRegExp.exec "'!@p1::Some long value" = None
  /\ replaced "items('!@p1::Some long value)" 0%nat = "items('!@p1::Some long value)".
Proof. vm_compute. split; reflexivity. Qed.

Example label_with_colon :
  replaced "items('!@a:b::c::d')" 0%nat = "items(@a:b)"
  /\ registered "items('!@a:b::c::d')" 0%nat Dictionary.empty = [("@a:b", "'c::d'")].
Proof. vm_compute. split; reflexivity. Qed.

Example clone_item_keeps_target :
  let (n, h') := clone Sample.combine Sample.isAbsolute Sample.item
                   SharePointQueryableCollection (Some "versions") None Sample.heap in
  _url n = "_api/web/lists/getbytitle('Tasks')/items(19)/versions"
  /\ _batch n = Some 7%nat
  /\ Dictionary.get "@target" (deref h' (_query n))
     = Some "'https://tenant.example/sites/hr'".
Proof. vm_compute. repeat split. Qed.

Example toRequestContext_item :
  let '(trace, (result, _), _) :=
    run Sample.collaborators
        (toRequestContext Sample.item "GeT" None 0%nat [] Sample.heap) 0%nat in
  map isAddBatchDependency trace = [true; false; false]
  /\ match result with
     | Resolved ctx => batchDependency ctx = BatchRelease 1
                       /\ isCached ctx = true
                       /\ options ctx !! "credentials"
                          = Some (OptionString "same-origin")
     | Rejected _ => False
     end.
Proof. vm_compute. repeat split. Qed.

Lemma construct_relative_witness :
  let nested := "_api/web/lists/getbytitle('Tasks')/items(19)/fields" in
  let indexed := "_api/web/lists/getbytitle('Tasks')/items(19)" in
  let p := Some "versions" in
  let statement b :=
    let n := fst (construct Sample.combine Sample.isAbsolute
                    SharePointQueryableCollection (BaseString b) p Sample.heap) in
    (JsString.lastIndexOf b "/" > JsString.lastIndexOf b "(" ->
     exists seg,
       b = _parentUrl n +:+ "/" +:+ seg
       /\ JsString.occurs "/" seg = false
       /\ JsString.occurs "(" seg = false
       /\ _url n = Sample.combine (_parentUrl n)
                     (Some (Sample.combine ("/" +:+ seg) p)))
    /\ (JsString.lastIndexOf b "/" <= JsString.lastIndexOf b "(" ->
        exists indexer,
          b = _parentUrl n +:+ "(" +:+ indexer
          /\ JsString.occurs "(" indexer = false
          /\ JsString.occurs "/" indexer = false
          /\ _url n = Sample.combine b p) in
  (Sample.isAbsolute nested = false /\ JsString.occurs "/" nested = true
   /\ JsString.lastIndexOf nested "/" > JsString.lastIndexOf nested "("
   /\ statement nested)
  /\ (Sample.isAbsolute indexed = false /\ JsString.occurs "/" indexed = true
      /\ JsString.lastIndexOf indexed "/" <= JsString.lastIndexOf indexed "("
      /\ statement indexed).
Proof.
  intros nested indexed p statement.
  split; (split; [reflexivity|]); (split; [reflexivity|]).
  - split; [reflexivity|].
    apply (construct_relative Sample.combine Sample.isAbsolute
             SharePointQueryableCollection nested p Sample.heap); reflexivity.
  - split; [vm_compute; discriminate|].
    apply (construct_relative Sample.combine Sample.isAbsolute
             SharePointQueryableCollection indexed p Sample.heap); reflexivity.
Defined.

Lemma construct_absolute_or_flat_witness :
  let b := "https://tenant.example/sites/hr" in
  let n := fst (construct Sample.combine Sample.isAbsolute SharePointQueryable
                  (BaseString b) (Some "_api/web") Sample.heap) in
  (Sample.isAbsolute b = true \/ JsString.occurs "/" b = false)
  /\ _parentUrl n = b
  /\ _url n = Sample.combine b (Some "_api/web").
Proof.
  intros b n.
  assert (H : Sample.isAbsolute b = true \/ JsString.occurs "/" b = false)
    by (left; reflexivity).
  split; [exact H|].
  exact (construct_absolute_or_flat Sample.combine Sample.isAbsolute
           SharePointQueryable b (Some "_api/web") Sample.heap H).
Defined.



Lemma orderBy_appends_witness :
  let this := Sample.lists in
  let h := Sample.heap in
  let before := deref h (_query this) in
  let clause := "Id" +:+ " " +:+ "desc" in
  allocated h this
  /\ keyUnique before
  /\ Dictionary.get "$orderby" before = None
  /\ before = Dictionary.empty
  /\ AliasRegExp.hasMatch (_url this) = false
  /\ (let (n, h') := Collection_orderBy this "Id" (Some false) h in
      n = this
      /\ deref h' (_query this)
         = Dictionary.add "$orderby"
             (match Dictionary.get "$orderby" before with
              | Some old => old +:+ "," +:+ clause
              | None => clause
              end) before)
  /\ (let (n1, h1) := Collection_orderBy this "Title" None h in
      let (n2, h2) := Collection_orderBy n1 "Created" (Some false) h1 in
      (Dictionary.get "$orderby" before = None ->
       Dictionary.get "$orderby" (deref h2 (_query n2))
       = Some "Title asc,Created desc")
      /\ (before = Dictionary.empty ->
          AliasRegExp.hasMatch (_url this) = false ->
          fst (toUrlAndQuery n2 h2)
          = _url this +:+ "?$orderby=Title asc,Created desc")).
Proof.
  intros this h before clause.
  assert (Ha : allocated h this) by (unfold allocated; simpl; lia).
  assert (Hu : keyUnique before)
    by (apply (bool_decide_unpack _); vm_compute; exact I).
  split; [exact Ha|]. split; [exact Hu|].
  split; [reflexivity|]. split; [reflexivity|]. split; [reflexivity|].
  exact (orderBy_appends this "Id" (Some false) h Ha Hu).
Defined.

Lemma toUrlAndQuery_twice_witness :
  allocated Sample.heap Sample.tasks
  /\ (let (s1, h1) := toUrlAndQuery Sample.tasks Sample.heap in
      let (s2, h2) := toUrlAndQuery Sample.tasks h1 in
      s1 = s2
      /\ deref h1 (_query Sample.tasks) = deref Sample.heap (_query Sample.tasks)
      /\ deref h2 (_query Sample.tasks) = deref Sample.heap (_query Sample.tasks)
      /\ (forall r : ref, (r < length (dicts Sample.heap))%nat ->
            deref h1 r = deref Sample.heap r /\ deref h2 r = deref Sample.heap r)).
Proof.
  assert (Ha : allocated Sample.heap Sample.tasks) by (unfold allocated; simpl; lia).
  split; [exact Ha|].
  exact (toUrlAndQuery_twice Sample.tasks Sample.heap Ha).
Defined.

Lemma cache_eligibility_witness :
  let '(trace, (result, _), _) :=
    run Sample.collaborators
        (toRequestContext Sample.item "POST" None 0%nat [] Sample.heap) 0%nat in
  match result with
  | Resolved ctx =>
      (isCached ctx = true <-> lower "POST" = "get" /\ _useCaching Sample.item = true)
      /\ ("POST" = "POST" -> isCached ctx = false)
  | Rejected reason =>
      exists candidate, In (EvToAbsoluteUrl candidate (Rejected reason)) trace
  end.
Proof.
  exact (cache_eligibility Sample.collaborators 0%nat Sample.item "POST" None
           0%nat [] Sample.heap).
Defined.

(** ** More on the pattern *)

Lemma lazyValue_sound (s v r : string) :
  AliasRegExp.lazyValue s = Some (v, r) ->
  s = v +:+ String "'" r /\ isValue v = true.
Proof.
  revert v. induction s as [|c s IH]; intros v H; cbn [AliasRegExp.lazyValue] in H.
  - discriminate.
  - destruct (Ascii.eqb_spec c "'") as [->|Hq].
    + injection H as <- <-. split; reflexivity.
    + destruct (AliasRegExp.isLineTerminator c) eqn:Hterm; [discriminate|].
      destruct (AliasRegExp.lazyValue s) as [[v' r']|]; [|discriminate].
      injection H as <- <-.
      destruct (IH v' eq_refl) as [-> Hv]. split; [reflexivity|].
      unfold isValue in *. cbn [allChars]. rewrite Hv, Hterm.
      destruct (Ascii.eqb_spec c "'"); [contradiction | reflexivity].
Qed.

(** A quote with no line terminator before it ends a value. *)
Lemma lazyValue_complete (x r : string) :
  allChars (fun c => negb (AliasRegExp.isLineTerminator c)) x = true ->
  AliasRegExp.lazyValue (x +:+ String "'" r) <> None.
Proof.
  induction x as [|c x IH]; intros Hx.
  - discriminate.
  - cbn [allChars] in Hx. apply andb_true_iff in Hx as [Hc Hx].
    apply negb_true_iff in Hc.
    change (String c x +:+ String "'" r) with (String c (x +:+ String "'" r)).
    cbn [AliasRegExp.lazyValue].
    destruct (Ascii.eqb c "'"); [discriminate|]. rewrite Hc.
    specialize (IH Hx).
    destruct (AliasRegExp.lazyValue (x +:+ String "'" r)) as [[v' r']|];
      [discriminate | contradiction].
Qed.

Lemma isValue_no_terminator (v : string) :
  isValue v = true ->
  allChars (fun c => negb (AliasRegExp.isLineTerminator c)) v = true.
Proof.
  unfold isValue. induction v as [|c v IH]; intros H; [reflexivity|].
  cbn [allChars] in *. apply andb_true_iff in H as [Hc Hv].
  apply andb_true_iff in Hc as [_ Hc]. now rewrite Hc, IH.
Qed.

Lemma allChars_app (p : ascii -> bool) (a b : string) :
  allChars p (a +:+ b) = allChars p a && allChars p b.
Proof.
  induction a as [|c a IH]; [reflexivity|].
  change (String c a +:+ b) with (String c (a +:+ b)).
  cbn [allChars]. now rewrite IH, andb_assoc.
Qed.

Lemma lazyLabel_single (c : ascii) :
  AliasRegExp.lazyLabel (String c EmptyString) = None.
Proof. destruct c as [[] [] [] [] [] [] [] []]; reflexivity. Qed.

Lemma lazyLabel_separator (s2 : string) :
  AliasRegExp.lazyLabel (String ":" (String ":" s2))
  = match AliasRegExp.lazyValue s2 with
    | Some (v, r) => Some (EmptyString, v, r)
    | None =>
        match AliasRegExp.lazyLabel (String ":" s2) with
        | Some (l, v, r) => Some (String ":" l, v, r)
        | None => None
        end
    end.
Proof. reflexivity. Qed.

Lemma head_label (l v r : string) :
  separatorHere (String ":" (l +:+ ":"))
  = separatorHere (String ":" (l +:+ "::" +:+ v +:+ String "'" r)).
Proof. destruct l; reflexivity. Qed.

Lemma lazyLabel_sound (s l v r : string) :
  AliasRegExp.lazyLabel s = Some (l, v, r) ->
  s = l +:+ "::" +:+ v +:+ String "'" r
  /\ allChars (fun c => negb (AliasRegExp.isLineTerminator c)) l = true
  /\ hasSeparator (l +:+ ":") = false
  /\ isValue v = true.
Proof.
  revert l. induction s as [|c s IH]; intros l H; [discriminate|].
  destruct s as [|d s2]; [rewrite lazyLabel_single in H; discriminate|].
  destruct (Ascii.eqb c ":" && Ascii.eqb d ":") eqn:Hsep.
  - apply andb_true_iff in Hsep as [Hc Hd].
    apply Ascii.eqb_eq in Hc, Hd. subst c d.
    rewrite lazyLabel_separator in H.
    destruct (AliasRegExp.lazyValue s2) as [[v0 r0]|] eqn:Hval.
    + injection H as <- <- <-.
      destruct (lazyValue_sound _ _ _ Hval) as [-> Hv].
      repeat split. exact Hv.
    + exfalso.
      destruct (AliasRegExp.lazyLabel (String ":" s2)) as [[[l' v'] r']|] eqn:Hl';
        [|discriminate].
      injection H as <- <- <-.
      destruct (IH l' eq_refl) as (Hs & Hchars & _ & Hv).
      apply isValue_no_terminator in Hv.
      destruct l' as [|e l''].
      * change (EmptyString +:+ "::" +:+ v' +:+ String "'" r')
          with (String ":" ((String ":" v') +:+ String "'" r')) in Hs.
        injection Hs as ->.
        apply (lazyValue_complete (String ":" v') r'); [|exact Hval].
        cbn [allChars]. rewrite Hv. reflexivity.
      * change (String e l'' +:+ "::" +:+ v' +:+ String "'" r')
          with (String e (l'' +:+ "::" +:+ v' +:+ String "'" r')) in Hs.
        injection Hs as _ ->.
        cbn [allChars] in Hchars. apply andb_true_iff in Hchars as [_ Hchars].
        apply (lazyValue_complete (l'' +:+ "::" +:+ v') r').
        -- rewrite !allChars_app, Hchars, Hv. reflexivity.
        -- rewrite <- Hval. f_equal. rewrite !append_assoc. reflexivity.
  - rewrite lazyLabel_step in H by exact Hsep.
    destruct (AliasRegExp.isLineTerminator c) eqn:Hterm; [discriminate|].
    destruct (AliasRegExp.lazyLabel (String d s2)) as [[[l' v'] r']|] eqn:Hl';
      [|discriminate].
    injection H as <- <- <-.
    destruct (IH l' eq_refl) as (Hs & Hchars & Hno & Hv).
    split; [now rewrite Hs|]. split; [cbn [allChars]; now rewrite Hterm, Hchars|].
    split; [|exact Hv].
    change (String c l' +:+ ":") with (String c (l' +:+ ":")).
    cbn [hasSeparator]. rewrite Hno, orb_false_r.
    assert (Hhead : Ascii.eqb c ":" && Ascii.eqb d ":"
                    = separatorHere (String c (l' +:+ ":"))).
    { destruct l' as [|e l''].
      - change (EmptyString +:+ "::" +:+ v' +:+ String "'" r')
          with (String ":" (String ":" (v' +:+ String "'" r'))) in Hs.
        injection Hs as -> _. reflexivity.
      - change (String e l'' +:+ "::" +:+ v' +:+ String "'" r')
          with (String e (l'' +:+ "::" +:+ v' +:+ String "'" r')) in Hs.
        injection Hs as -> _. reflexivity. }
    rewrite <- Hhead. exact Hsep.
Qed.

Lemma exec_sound (s : string) (m : AliasRegExp.Match) :
  AliasRegExp.exec s = Some m ->
  isLabel (AliasRegExp.labelName m) = true
  /\ isValue (AliasRegExp.value m) = true
  /\ AliasRegExp.whole m
     = token (AliasRegExp.labelName m) (AliasRegExp.value m)
  /\ s = AliasRegExp.whole m +:+ AliasRegExp.rest m.
Proof.
  intros H. destruct (exec_opens s m H) as [s3 ->].
  change ("'!@" +:+ s3) with (String "'" (String "!" (String "@" s3))) in H.
  cbn [AliasRegExp.exec] in H.
  destruct (AliasRegExp.lazyLabel s3) as [[[l v] r]|] eqn:Hl; [|discriminate].
  injection H as <-. cbn [AliasRegExp.labelName AliasRegExp.value
                           AliasRegExp.whole AliasRegExp.rest].
  destruct (lazyLabel_sound _ _ _ _ Hl) as (-> & Hchars & Hno & Hv).
  split; [cbn [isLabel]; now rewrite Hchars, Hno|]. split; [exact Hv|].
  split; [reflexivity|].
  repeat first [rewrite append_assoc | progress simpl]. reflexivity.
Qed.

(** X1. The pattern matches at the head of a string exactly when the string
    begins with a token ['!label::value'] whose label is [@] followed by
    characters other than line terminators, with no [::] inside and no
    final colon, and whose value holds no quote and no line terminator;
    the match is then that token, its label and its value, and what
    follows it is left for the next search. *)
Theorem exec_token_iff (s : string) (m : AliasRegExp.Match) :
  AliasRegExp.exec s = Some m
  <-> isLabel (AliasRegExp.labelName m) = true
      /\ isValue (AliasRegExp.value m) = true
      /\ AliasRegExp.whole m
         = token (AliasRegExp.labelName m) (AliasRegExp.value m)
      /\ s = AliasRegExp.whole m +:+ AliasRegExp.rest m.
Proof.
  split; [apply exec_sound|].
  destruct m as [w l v r]. cbn [AliasRegExp.labelName AliasRegExp.value
                                AliasRegExp.whole AliasRegExp.rest].
  intros (Hl & Hv & -> & ->). now apply exec_token.
Qed.

Lemma length_token (l v : string) :
  String.length (token l v) = (String.length l + String.length v + 5)%nat.
Proof. unfold token. rewrite !length_append. simpl. lia. Qed.

Lemma replaced_length_skip (s : string) (k : nat) :
  (String.length (replaced s k) + Nat.min k (String.length s)
   <= String.length s)%nat.
Proof.
  revert k. induction s as [|c s IH]; intros k; [simpl; lia|].
  destruct k as [|k]; cbn [replaced].
  - destruct (AliasRegExp.exec (String c s)) as [m|] eqn:Hex.
    + destruct (exec_sound _ _ Hex) as (_ & _ & Hw & Hs).
      apply (f_equal String.length) in Hs.
      rewrite length_append, Hw, length_token in Hs. simpl in Hs.
      rewrite length_append, Hw, length_token.
      specialize (IH (String.length (AliasRegExp.labelName m)
                      + String.length (AliasRegExp.value m) + 5 - 1)%nat).
      simpl. lia.
    + specialize (IH 0%nat). simpl. simpl in IH. lia.
  - specialize (IH k). simpl. lia.
Qed.

Lemma replaced_shorter (s : string) :
  AliasRegExp.hasMatch s = true ->
  (String.length (replaced s 0%nat) + 5 <= String.length s)%nat.
Proof.
  induction s as [|c s IH]; intros H; [discriminate|].
  cbn [AliasRegExp.hasMatch] in H. cbn [replaced].
  destruct (AliasRegExp.exec (String c s)) as [m|] eqn:Hex.
  - destruct (exec_sound _ _ Hex) as (_ & _ & Hw & Hs).
    apply (f_equal String.length) in Hs.
    rewrite length_append, Hw, length_token in Hs. simpl in Hs.
    rewrite length_append, Hw, length_token.
    pose proof (replaced_length_skip s
                  (String.length (AliasRegExp.labelName m)
                   + String.length (AliasRegExp.value m) + 5 - 1)%nat).
    cbn [String.length] in *. lia.
  - specialize (IH H). cbn [String.length]. lia.
Qed.

(** X2. The URL body [toUrlAndQuery] gets from its [replace] is never
    longer than the URL: a URL in which the pattern matches nowhere comes
    back as it is, any other comes back at least five characters
    shorter. *)
Theorem replace_shortens (s : string) (aliasedParams : ref) (h : Heap) :
  (aliasedParams < length (dicts h))%nat ->
  let body := fst (AliasRegExp.replace s (rewriteAlias aliasedParams) h) in
  (String.length body <= String.length s)%nat
  /\ (AliasRegExp.hasMatch s = false -> body = s)
  /\ (AliasRegExp.hasMatch s = true ->
      (String.length body + 5 <= String.length s)%nat).
Proof.
  intros Hr. unfold AliasRegExp.replace.
  rewrite replace_from_rewriteAlias by exact Hr. cbn [fst].
  split; [|split].
  - pose proof (replaced_length_skip s 0%nat). lia.
  - intros H. exact (proj1 (replaced_no_match s H)).
  - apply replaced_shorter.
Qed.

(** *** The scan from left to right *)

Lemma exec_ahead (s : string) (m : AliasRegExp.Match) :
  AliasRegExp.exec s = Some m -> tokenAhead s.
Proof.
  intros H. destruct (exec_sound s m H) as (Hl & Hv & Hw & Hs).
  exists (AliasRegExp.labelName m), (AliasRegExp.value m), (AliasRegExp.rest m).
  rewrite <- Hw. auto.
Qed.

Lemma ahead_exec (s : string) :
  tokenAhead s -> exists m, AliasRegExp.exec s = Some m.
Proof.
  intros (l & v & r & Hl & Hv & ->). eexists. now apply exec_token.
Qed.

Lemma exec_none_ahead (s : string) :
  AliasRegExp.exec s = None <-> ~ tokenAhead s.
Proof.
  split.
  - intros H Ha. destruct (ahead_exec s Ha) as [m Hm]. congruence.
  - intros H. destruct (AliasRegExp.exec s) as [m|] eqn:E; [|reflexivity].
    exfalso. apply H. exact (exec_ahead s m E).
Qed.

Lemma inert_matchesWithin (t after : string) :
  matchesWithin t after = false <-> inert t after.
Proof.
  induction t as [|c t IH]; [cbn; tauto|].
  cbn [matchesWithin inert].
  destruct (AliasRegExp.exec (String c t +:+ after)) as [m|] eqn:E.
  - split; [discriminate|]. intros [Hno _]. exfalso. apply Hno.
    exact (exec_ahead _ m E).
  - rewrite IH. apply exec_none_ahead in E. tauto.
Qed.

Lemma replaced_inert (t R : string) :
  inert t R ->
  replaced (t +:+ R) 0%nat = t +:+ replaced R 0%nat
  /\ forall d, registered (t +:+ R) 0%nat d = registered R 0%nat d.
Proof.
  induction t as [|c t IH]; intros Ht; [split; reflexivity|].
  cbn [inert] in Ht. destruct Ht as [Hno Ht].
  apply exec_none_ahead in Hno. destruct (IH Ht) as [IH1 IH2].
  change (String c t +:+ R) with (String c (t +:+ R)) in *.
  cbn [replaced registered]. rewrite Hno, IH1. split; [reflexivity | exact IH2].
Qed.

Lemma replaced_scanned (segs : Segments) (tail : string) :
  scanned segs tail ->
  replaced (render segs tail) 0%nat = rewritten segs tail
  /\ forall d, registered (render segs tail) 0%nat d
               = fold_left (fun acc kv => Dictionary.add (fst kv) (snd kv) acc)
                           (aliasPairs segs) d.
Proof.
  induction segs as [|[[t l] v] segs IH]; intros Hs.
  - cbn [scanned] in Hs.
    cbn [render rewritten aliasPairs map fold_left].
    destruct (replaced_inert tail EmptyString Hs) as [H1 H2].
    rewrite append_nil_r in H1, H2. cbn [replaced] in H1.
    rewrite append_nil_r in H1. split; [exact H1 | exact H2].
  - cbn [scanned] in Hs. destruct Hs as (Ht & Hl & Hv & Hs).
    cbn [render rewritten aliasPairs map fold_left fst snd] in *.
    destruct (IH Hs) as [IH1 IH2].
    destruct (replaced_inert t (token l v +:+ render segs tail) Ht) as [H1 H2].
    destruct (replaced_token l v (render segs tail) Hl Hv) as [H3 H4].
    rewrite H1, H3, IH1. split; [reflexivity|].
    intros d. rewrite H2, H4, IH2. reflexivity.
Qed.

(** Every string has such a cut. *)
Lemma scanned_exists (s : string) :
  exists segs tail, s = render segs tail /\ scanned segs tail.
Proof.
  remember (String.length s) as n eqn:Hn.
  revert s Hn. induction n as [n IH] using lt_wf_ind. intros s Hn.
  destruct s as [|c s'].
  - exists [], EmptyString. split; [reflexivity | exact I].
  - destruct (AliasRegExp.exec (String c s')) as [m|] eqn:E.
    + destruct (exec_sound _ m E) as (Hl & Hv & Hw & Hs).
      assert (Hlen : (String.length (AliasRegExp.rest m) < n)%nat).
      { rewrite Hn, Hs, length_append, Hw, length_token. lia. }
      destruct (IH _ Hlen (AliasRegExp.rest m) eq_refl)
        as (segs & tail & Hr & Hsc).
      exists ((EmptyString, AliasRegExp.labelName m, AliasRegExp.value m)
              :: segs), tail.
      split.
      * cbn [render]. rewrite <- Hr, <- Hw. exact Hs.
      * cbn [scanned inert]. auto.
    + assert (Hlen : (String.length s' < n)%nat)
        by (rewrite Hn; cbn [String.length]; lia).
      destruct (IH _ Hlen s' eq_refl) as (segs & tail & Hr & Hsc).
      apply exec_none_ahead in E.
      destruct segs as [|[[t l] v] segs].
      * exists [], (String c tail). cbn [render scanned inert] in *.
        subst s'. rewrite append_nil_r. auto.
      * exists ((String c t, l, v) :: segs), tail.
        cbn [render scanned inert] in *. destruct Hsc as (Ht & Hl & Hv & Hsc).
        subst s'. auto.
Qed.

Lemma serialised_scanned (segs : Segments) (tail : string)
    (accumulator : Dictionary.t) :
  scanned segs tail ->
  serialised (render segs tail) accumulator
  = Dictionary.merge accumulator (aliases segs).
Proof.
  intros Hs. unfold serialised, aliases.
  destruct (replaced_scanned segs tail Hs) as [_ ->]. reflexivity.
Qed.

(** C3. Cut the node's URL, from left to right, into text and tokens
    ['!@label::value']: a label is [@] and then characters other than line
    terminators with no [::] inside and no final colon, a value holds no
    quote and no line terminator, and whatever else the URL holds is text.
    Every URL has such a cut. [toUrlAndQuery] answers the URL with every
    token replaced by its bare label, followed by the query string of the
    parameters: each label is registered with its value wrapped in single
    quotes, then the node's accumulator is merged in and wins where it has
    a key of the same name; the keys come in the order in which they were
    first seen, the pairs are written [key=value] and joined by [&], and
    the [?] is there exactly when there is a pair. *)
Theorem toUrlAndQuery_rewrites (this : Node) (h : Heap) :
  allocated h this ->
  keyUnique (deref h (_query this)) ->
  (exists segs tail, _url this = render segs tail /\ scanned segs tail)
  /\ forall segs tail,
       _url this = render segs tail ->
       scanned segs tail ->
       let accumulator := deref h (_query this) in
       let params := Dictionary.merge accumulator (aliases segs) in
       fst (toUrlAndQuery this h) = rewritten segs tail +:+ queryString params
       /\ (forall before text label value after,
             segs = before ++ (text, label, value) :: after ->
             ~ In label (labels after) ->
             Dictionary.get label (aliases segs) = Some ("'" +:+ value +:+ "'"))
       /\ (forall key,
             Dictionary.get key params
             = match Dictionary.get key accumulator with
               | Some v => Some v
               | None => Dictionary.get key (aliases segs)
               end)
       /\ Dictionary.getKeys params
          = firstSeen (labels segs ++ Dictionary.getKeys accumulator)
       /\ keyUnique params
       /\ (params = [] <-> segs = [] /\ accumulator = []).
Proof.
  intros Hq Hu. split; [apply scanned_exists|].
  intros segs tail Hurl Hsc accumulator params.
  assert (Hparams : keyUnique params).
  { apply keyUnique_fold, keyUnique_fold, keyUnique_empty. }
  assert (Hkeys : Dictionary.getKeys params
                  = firstSeen (labels segs ++ Dictionary.getKeys accumulator)).
  { unfold params, Dictionary.merge, aliases.
    rewrite <- fold_left_app, getKeys_fold by apply keyUnique_empty.
    rewrite map_app, labels_aliasPairs. reflexivity. }
  split; [|split; [|split; [|split; [|split]]]].
  - rewrite (toUrlAndQuery_run this h Hq). cbn [fst]. rewrite Hurl.
    destruct (replaced_scanned segs tail Hsc) as [-> _].
    rewrite serialised_scanned by assumption.
    fold accumulator. fold params. now rewrite queryString_pairs.
  - intros before text label value after -> Hlast.
    unfold aliases, aliasPairs. rewrite map_app, fold_left_app.
    cbn [map fold_left fst snd].
    rewrite get_fold_absent.
    + apply get_add_eq.
    + fold (aliasPairs after). now rewrite labels_aliasPairs.
  - intros key. unfold params. apply get_merge. exact Hu.
  - exact Hkeys.
  - exact Hparams.
  - split.
    + intros Hnil. rewrite Hnil in Hkeys. cbn in Hkeys.
      destruct segs as [|seg segs]; [|discriminate]. split; [reflexivity|].
      destruct accumulator as [|kv acc]; [reflexivity | discriminate].
    + intros [-> Hacc]. unfold params. rewrite Hacc. reflexivity.
Qed.

(** *** The log *)

Lemma written_skip (w R : string) :
  written (w +:+ R) (String.length w) = written R 0%nat.
Proof. induction w as [|c w IH]; [reflexivity | exact IH]. Qed.

Lemma written_text (t R : string) :
  opensToken t = false ->
  R = EmptyString \/ (exists R', R = String "'" R') ->
  written (t +:+ R) 0%nat = written R 0%nat.
Proof.
  intros Ht HR. induction t as [|c t IH]; [reflexivity|].
  assert (Hex : AliasRegExp.exec (String c t +:+ R) = None)
    by (apply exec_text; [assumption | discriminate | assumption]).
  cbn [opensToken] in Ht. apply orb_false_iff in Ht as [_ Ht].
  change (String c t +:+ R) with (String c (t +:+ R)) in *.
  cbn [written]. rewrite Hex. exact (IH Ht).
Qed.

Lemma written_token (l v R : string) :
  isLabel l = true -> isValue v = true ->
  written (token l v +:+ R) 0%nat = logLine (EmptyString, l, v) :: written R 0%nat.
Proof.
  intros Hl Hv.
  pose proof (exec_token l v R Hl Hv) as Hex.
  set (w := "!" +:+ l +:+ "::" +:+ v +:+ "'").
  assert (Hw : token l v = String "'" w) by reflexivity.
  assert (Hlen : (String.length (token l v) - 1)%nat = String.length w)
    by (rewrite Hw; simpl; lia).
  rewrite Hw in Hex |- *.
  change (String "'" w +:+ R) with (String "'" (w +:+ R)) in *.
  cbn [written]. rewrite Hex.
  cbn [AliasRegExp.labelName AliasRegExp.whole AliasRegExp.value].
  rewrite <- Hw, Hlen, written_skip. reflexivity.
Qed.

Lemma written_render (segs : Segments) (tail : string) :
  wellFormed segs tail ->
  written (render segs tail) 0%nat = map logLine segs.
Proof.
  intros [Hsegs Htail]. induction Hsegs as [|[[t l] v] segs (Ht & Hl & Hv) _ IH].
  - cbn [render map].
    rewrite <- (append_nil_r tail) at 1.
    rewrite written_text by (assumption || now left). reflexivity.
  - cbn [render map fst snd] in *.
    rewrite written_text by (assumption || (right; apply token_opens)).
    rewrite written_token by assumption. rewrite IH. reflexivity.
Qed.

(** X3. [toUrlAndQuery] writes to the log one line per token of the URL,
    from left to right, at level [Verbose], with the matched text, the
    label and the value; the lines that were in the log stay, and a URL
    without a token adds none. *)
Theorem toUrlAndQuery_logs (this : Node) (h : Heap)
    (segs : Segments) (tail : string) :
  allocated h this ->
  _url this = render segs tail ->
  wellFormed segs tail ->
  logged (snd (toUrlAndQuery this h)) = logged h ++ map logLine segs.
Proof.
  intros Hq Hurl Hwf. rewrite (toUrlAndQuery_run this h Hq). cbn [snd logged].
  rewrite Hurl, written_render by exact Hwf. reflexivity.
Qed.

(** ** More on construction and derivation *)

Section Construction.

Variable combinePaths : string -> option string -> string.
Variable isUrlAbsolute : string -> bool.

(** X4. Whatever the base string, the [parentUrl] the constructor sets is
    a prefix of it; it is the whole base exactly when the base is absolute
    or holds no [/]; and it depends on the base alone, not on the path,
    the factory or the heap. *)
Theorem construct_parent_prefix
    (factory : Factory) (b : string) (p : option string) (h : Heap) :
  let n := fst (construct combinePaths isUrlAbsolute factory (BaseString b) p h) in
  (exists rest,
     b = _parentUrl n +:+ rest
     /\ (rest = EmptyString
         <-> isUrlAbsolute b = true \/ JsString.occurs "/" b = false))
  /\ (forall factory' p' h',
        _parentUrl (fst (construct combinePaths isUrlAbsolute factory'
                           (BaseString b) p' h'))
        = _parentUrl n).
Proof.
  cbv zeta. unfold construct, ODataQueryable_new.
  split.
  - rewrite !mbind_run. unfold new_Dictionary. cbv beta iota.
    rewrite mret_run.
    destruct (isUrlAbsolute b) eqn:Habs.
    + cbn [orb]. rewrite mret_run. cbn [fst _parentUrl set_url set_parentUrl].
      exists EmptyString. split; [now rewrite append_nil_r|].
      split; [now left | reflexivity].
    + cbn [orb].
      destruct (JsString.occurs "/" b) eqn:Hsep.
      * destruct (lastIndexOf_present b "/" Hsep) as (q & t & Hb & Ht & Hi).
        destruct (Z.ltb_spec (JsString.lastIndexOf b "/") 0) as [Hneg|_]; [lia|].
        destruct (JsString.lastIndexOf b "/" >? JsString.lastIndexOf b "(") eqn:Hcmp;
          rewrite mret_run; cbn [fst _parentUrl set_url set_parentUrl].
        -- assert (Hpre : JsString.slice b 0 (Some (Z.of_nat (String.length q))) = q)
             by (rewrite Hb at 1; apply slice_prefix).
           rewrite Hi, Hpre.
           exists (String "/" t). split; [exact Hb|].
           split; [discriminate | intros [H|H]; discriminate].
        -- assert (Hocc : JsString.occurs "(" b = true).
           { destruct (JsString.occurs "(" b) eqn:Ho; [reflexivity|].
             rewrite (lastIndexOf_absent b "(" Ho) in Hcmp.
             destruct (Z.gtb_spec (JsString.lastIndexOf b "/") (-1));
               [discriminate | lia]. }
           destruct (lastIndexOf_present b "(" Hocc) as (q2 & t2 & Hb2 & _ & Hi2).
           assert (Hpre : JsString.slice b 0 (Some (Z.of_nat (String.length q2))) = q2)
             by (rewrite Hb2 at 1; apply slice_prefix).
           rewrite Hi2, Hpre.
           exists (String "(" t2). split; [exact Hb2|].
           split; [discriminate | intros [H|H]; discriminate].
      * assert (Hlt : (JsString.lastIndexOf b "/" <? 0) = true)
          by (apply Z.ltb_lt; now apply lastIndexOf_negative).
        rewrite Hlt, mret_run. cbn [fst _parentUrl set_url set_parentUrl].
        exists EmptyString. split; [now rewrite append_nil_r|].
        split; [now right | reflexivity].
  - intros factory' p' h'. rewrite !mbind_run.
    unfold new_Dictionary. cbv beta iota. rewrite !mret_run.
    destruct (isUrlAbsolute b || (JsString.lastIndexOf b "/" <? 0));
      [|destruct (JsString.lastIndexOf b "/" >? JsString.lastIndexOf b "(")];
      rewrite !mret_run; reflexivity.
Qed.

(** What the constructor leaves at their initial value. *)
Lemma construct_defaults (factory : Factory) (b : BaseUrl) (p : option string)
    (h : Heap) :
  let n := fst (construct combinePaths isUrlAbsolute factory b p h) in
  _class n = factory /\ _batch n = None /\ _useCaching n = false
  /\ _cachingOptions n = None.
Proof.
  intros n.
  assert (Hn : exists u pu q o,
             n = mkNode factory u pu q o false None None).
  { subst n. unfold construct, ODataQueryable_new.
    rewrite !mbind_run. unfold new_Dictionary at 1. cbv beta iota.
    rewrite mret_run.
    destruct b as [s|parent].
    - destruct (isUrlAbsolute s || (JsString.lastIndexOf s "/" <? 0));
        [|destruct (JsString.lastIndexOf s "/" >? JsString.lastIndexOf s "(")];
        rewrite mret_run; repeat eexists.
    - rewrite mbind_run. unfold ODataQueryable_extend at 1.
      rewrite mbind_run. unfold dict_merge at 1, update at 1. cbv beta iota.
      rewrite mret_run, mbind_run, dict_get_run.
      destruct (Dictionary.get "@target" _);
        rewrite mbind_run; [rewrite dict_add_run|]; rewrite !mret_run;
        repeat eexists. }
  destruct Hn as (u & pu & q & o & ->). repeat split.
Qed.

(** X5. The node [getParent] makes from a string base (or from
    [this.parentUrl] when the base is left out) starts with an empty
    accumulator: it holds the [@target] entry of the node it was asked on
    when there is one and nothing else, so no [$select], [$filter] or
    [$orderby] goes up to the parent. The parent is in the batch that was
    passed and in none when the argument is left out, whatever the batch
    of the node. *)
Theorem getParent_from_string (this : Node) (h : Heap) (factory : Factory)
    (base : option string) (path : option string) (batch : option SPBatch) :
  allocated h this ->
  let (n, h') := getParent combinePaths isUrlAbsolute this factory
                   (BaseString <$> base) path batch h in
  deref h' (_query n)
  = match Dictionary.get "@target" (deref h (_query this)) with
    | Some target => [("@target", target)]
    | None => []
    end
  /\ _batch n = batch
  /\ _class n = factory.
Proof.
  intros Hq. unfold allocated in Hq. unfold getParent. rewrite mbind_run.
  set (b := default (BaseString (parentUrl this)) (BaseString <$> base)).
  assert (Hb : exists s, b = BaseString s)
    by (destruct base; eexists; reflexivity).
  destruct Hb as [s Hb].
  pose proof (construct_fresh combinePaths isUrlAbsolute factory b path h) as Hc.
  pose proof (construct_defaults factory b path h) as Hd.
  destruct (construct combinePaths isUrlAbsolute factory b path h) as [n h1].
  cbn [fst] in Hd. destruct Hd as (Hclass & Hbatch & _).
  destruct Hc as (Hn & Hlen & Hold & Hempty).
  rewrite mbind_run, dict_get_run. unfold query.
  rewrite (Hold _ Hq).
  assert (Hres : forall b0 : option SPBatch,
            let r := match b0 with
                     | Some b1 => inBatch (Some b1) (configure (_options this) n)
                     | None => configure (_options this) n
                     end in
            _query r = _query n /\ _batch r = b0 /\ _class r = factory).
  { intros [b1|]; cbn; auto. }
  destruct (Hres batch) as (Hrq & Hrb & Hrc).
  destruct (Dictionary.get "@target" (deref h (_query this))) as [t|].
  - rewrite mbind_run, dict_add_run, mret_run. rewrite Hrq, Hrb, Hrc.
    cbn [configure set_options _query].
    rewrite deref_insert_eq by lia. rewrite (Hempty _ Hb).
    repeat split.
  - rewrite mbind_run, !mret_run. rewrite Hrq, Hrb, Hrc.
    rewrite (Hempty _ Hb). repeat split.
Qed.

(** X6. [clone], [getParent] and the cast [as] each allocate exactly one
    accumulator, the one of the node they answer, and leave every
    accumulator that was in the heap as it was: the node they derive from
    keeps its parameters. *)
Theorem derivation_frame (this : Node) (h : Heap) :
  let fresh (result : Node * Heap) :=
    _query (fst result) = length (dicts h)
    /\ length (dicts (snd result)) = S (length (dicts h))
    /\ forall r : ref, (r < length (dicts h))%nat ->
         deref (snd result) r = deref h r in
  (forall factory additionalPath includeBatch,
     fresh (clone combinePaths isUrlAbsolute this factory additionalPath
              includeBatch h))
  /\ (forall factory baseUrl path batch,
        fresh (getParent combinePaths isUrlAbsolute this factory baseUrl path
                 batch h))
  /\ (forall factory, fresh (as_ combinePaths isUrlAbsolute this factory h)).
Proof.
  intros fresh. unfold fresh. split; [|split].
  - intros factory additionalPath includeBatch. unfold clone. rewrite mbind_run.
    pose proof (construct_fresh combinePaths isUrlAbsolute factory
                  (BaseNode this) additionalPath h) as Hc.
    destruct (construct combinePaths isUrlAbsolute factory (BaseNode this)
                additionalPath h) as [n h1].
    destruct Hc as (Hn & Hlen & Hold & _).
    rewrite mbind_run, dict_get_run.
    assert (Hsame : forall b : bool,
               _query (if b then inBatch (batch this)
                                   (configure (_options this) n)
                       else configure (_options this) n) = _query n)
      by (intros []; reflexivity).
    destruct (Dictionary.get "@target" (deref h1 (query this))) as [t|].
    + rewrite mbind_run, dict_add_run, mret_run. cbn [fst snd dicts].
      rewrite Hsame, length_insert. repeat split; try assumption.
      intros r Hr. cbn [configure set_options _query query].
      rewrite deref_insert_ne by lia. now apply Hold.
    + rewrite mbind_run, !mret_run. cbn [fst snd]. rewrite Hsame.
      repeat split; assumption.
  - intros factory baseUrl path batch0. unfold getParent. rewrite mbind_run.
    pose proof (construct_fresh combinePaths isUrlAbsolute factory
                  (default (BaseString (parentUrl this)) baseUrl) path h) as Hc.
    destruct (construct combinePaths isUrlAbsolute factory
                (default (BaseString (parentUrl this)) baseUrl) path h) as [n h1].
    destruct Hc as (Hn & Hlen & Hold & _).
    rewrite mbind_run, dict_get_run.
    assert (Hsame : _query (match batch0 with
                            | Some b => inBatch (Some b)
                                          (configure (_options this) n)
                            | None => configure (_options this) n
                            end) = _query n)
      by (destruct batch0; reflexivity).
    destruct (Dictionary.get "@target" (deref h1 (query this))) as [t|].
    + rewrite mbind_run, dict_add_run, mret_run. cbn [fst snd dicts].
      rewrite Hsame, length_insert. repeat split; try assumption.
      intros r Hr. cbn [configure set_options _query query].
      rewrite deref_insert_ne by lia. now apply Hold.
    + rewrite mbind_run, !mret_run. cbn [fst snd]. rewrite Hsame.
      repeat split; assumption.
  - intros factory. unfold as_. rewrite mbind_run.
    pose proof (construct_fresh combinePaths isUrlAbsolute factory
                  (BaseString (_url this)) None h) as Hc.
    destruct (construct combinePaths isUrlAbsolute factory
                (BaseString (_url this)) None h) as [o h1].
    destruct Hc as (Hn & Hlen & Hold & _).
    unfold extend. rewrite mret_run.
    cbn [fst snd _query assigned andb]. repeat split; assumption.
Qed.

(** X7. The node [clone] answers is in the batch of the node it was made
    from when [includeBatch] is true or left out, and in no batch when
    [includeBatch] is false; it is of the class of the factory. *)
Theorem clone_batch (this : Node) (h : Heap) (factory : Factory)
    (additionalPath : option string) (includeBatch : option bool) :
  let n := fst (clone combinePaths isUrlAbsolute this factory additionalPath
                  includeBatch h) in
  _batch n = match includeBatch with
             | Some false => None
             | _ => _batch this
             end
  /\ _class n = factory.
Proof.
  cbv zeta. unfold clone. rewrite mbind_run.
  pose proof (construct_defaults factory (BaseNode this) additionalPath h) as Hd.
  destruct (construct combinePaths isUrlAbsolute factory (BaseNode this)
              additionalPath h) as [n h1].
  cbn [fst] in Hd. destruct Hd as (Hclass & Hbatch & _).
  rewrite mbind_run, dict_get_run.
  assert (Hres : let r := if default true includeBatch && hasBatch this
                          then inBatch (batch this) (configure (_options this) n)
                          else configure (_options this) n in
                 _batch r = match includeBatch with
                            | Some false => None
                            | _ => _batch this
                            end
                 /\ _class r = factory).
  { unfold hasBatch, batch.
    destruct includeBatch as [[|]|], (_batch this) eqn:Hb; cbn; auto. }
  destruct (Dictionary.get "@target" (deref h1 (query this))) as [t|].
  - rewrite mbind_run, dict_add_run, mret_run. exact Hres.
  - rewrite mbind_run, !mret_run. exact Hres.
Qed.

End Construction.

(** ** More on the request context *)

(** X8. [toRequestContext] hands to [toAbsoluteUrl], once, the string
    [toUrlAndQuery()] gives, and changes the heap as that call does. When
    the resolution succeeds it then asks for one GUID, last of all its
    calls: the context carries that GUID as [requestId], the resolved URL,
    the verb, parser and pipeline it was given, and the batch of the node
    with [isBatched] telling whether there is one. When the resolution is
    rejected no GUID is asked for and the rejection ends the trace. In all
    cases at most three calls are made. *)
Theorem toRequestContext_settles {W : Type} (handle : Handler W) (w : W)
    (this : Node) (method : string) (supplied : option FetchOptions)
    (prs : ODataParser) (stages : list PipelineStage) (h : Heap) :
  let '(trace, (result, h'), _) :=
    run handle (toRequestContext this method supplied prs stages h) w in
  let candidate := fst (toUrlAndQuery this h) in
  h' = snd (toUrlAndQuery this h)
  /\ candidates trace = [candidate]
  /\ (length trace <= 3)%nat
  /\ match result with
     | Resolved ctx =>
         guids trace = [requestId ctx]
         /\ last trace = Some (EvGetGUID (requestId ctx))
         /\ In (EvToAbsoluteUrl candidate (Resolved (requestAbsoluteUrl ctx))) trace
         /\ verb ctx = method /\ parser ctx = prs /\ pipeline ctx = stages
         /\ ctx_batch ctx = _batch this
         /\ (isBatched ctx = true <-> _batch this <> None)
         /\ cachingOptions ctx = _cachingOptions this
     | Rejected reason =>
         guids trace = []
         /\ last trace = Some (EvToAbsoluteUrl candidate (Rejected reason))
     end.
Proof.
  unfold toRequestContext, hasBatch, batch.
  destruct (_batch this) as [b|]; cbn [Prog_bind run].
  - destruct (handle ReleaseFn (AddBatchDependency (Some b)) w) as [release w1].
    destruct (toUrlAndQuery this h) as [candidate h1]. cbn [run fst snd].
    destruct (handle _ (ToAbsoluteUrl candidate) w1) as [[url|reason] w2];
      cbn [run].
    + destruct (handle string GetGUID w2) as [guid w3]. cbn.
      repeat split; auto; discriminate.
    + cbn. repeat split; auto.
  - destruct (toUrlAndQuery this h) as [candidate h1]. cbn [run fst snd].
    destruct (handle _ (ToAbsoluteUrl candidate) w) as [[url|reason] w2];
      cbn [run].
    + destruct (handle string GetGUID w2) as [guid w3]. cbn.
      repeat split; auto; try discriminate.
    + cbn. repeat split; auto.
Qed.

Lemma toRequestContext_heap {W : Type} (handle : Handler W) (w : W)
    (this : Node) (method : string) (supplied : option FetchOptions)
    (prs : ODataParser) (stages : list PipelineStage) (h : Heap) :
  let '(trace, (_, h'), _) :=
    run handle (toRequestContext this method supplied prs stages h) w in
  h' = snd (toUrlAndQuery this h)
  /\ candidates trace = [fst (toUrlAndQuery this h)].
Proof.
  unfold toRequestContext, hasBatch, batch.
  destruct (_batch this) as [b|]; cbn [Prog_bind run].
  - destruct (handle ReleaseFn (AddBatchDependency (Some b)) w) as [release w1].
    destruct (toUrlAndQuery this h) as [candidate h1]. cbn [run fst snd].
    destruct (handle _ (ToAbsoluteUrl candidate) w1) as [[url|reason] w2];
      cbn [run].
    + destruct (handle string GetGUID w2) as [guid w3]. split; reflexivity.
    + split; reflexivity.
  - destruct (toUrlAndQuery this h) as [candidate h1]. cbn [run fst snd].
    destruct (handle _ (ToAbsoluteUrl candidate) w) as [[url|reason] w2];
      cbn [run].
    + destruct (handle string GetGUID w2) as [guid w3]. split; reflexivity.
    + split; reflexivity.
Qed.

(** X9. Building a request context does not use the node up: built again,
    with any verb, options and collaborators, the node sends the same
    string to [toAbsoluteUrl], and every accumulator that was in the heap
    is still as it was after both builds. *)
Theorem toRequestContext_again {W W' : Type}
    (handle : Handler W) (w : W) (handle' : Handler W') (w' : W')
    (this : Node) (method method' : string)
    (supplied supplied' : option FetchOptions) (prs prs' : ODataParser)
    (stages stages' : list PipelineStage) (h : Heap) :
  allocated h this ->
  let '(trace1, (_, h1), _) :=
    run handle (toRequestContext this method supplied prs stages h) w in
  let '(trace2, (_, h2), _) :=
    run handle' (toRequestContext this method' supplied' prs' stages' h1) w' in
  candidates trace1 = candidates trace2
  /\ (forall r : ref, (r < length (dicts h))%nat ->
        deref h1 r = deref h r /\ deref h2 r = deref h r).
Proof.
  intros Hq.
  pose proof (toRequestContext_heap handle w this method supplied prs stages h) as H1.
  destruct (run handle (toRequestContext this method supplied prs stages h) w)
    as [[trace1 [res1 h1]] w1].
  destruct H1 as [-> ->].
  rewrite (toUrlAndQuery_run this h Hq). cbn [fst snd].
  set (h1 := mkHeap _ _).
  assert (Hold : forall r : ref, (r < length (dicts h))%nat ->
                   deref h1 r = deref h r)
    by (intros r Hr; now apply deref_alloc_old).
  assert (Hq1 : allocated h1 this).
  { unfold allocated, h1 in *. simpl. rewrite length_app. simpl. lia. }
  pose proof (toRequestContext_heap handle' w' this method' supplied' prs'
                stages' h1) as H2.
  destruct (run handle' (toRequestContext this method' supplied' prs' stages' h1) w')
    as [[trace2 [res2 h2]] w2].
  destruct H2 as [-> ->].
  rewrite (toUrlAndQuery_run this h1 Hq1). cbn [fst snd].
  rewrite (Hold _ Hq). split; [reflexivity|].
  intros r Hr. split; [now apply Hold|].
  rewrite deref_alloc_old; [now apply Hold|].
  unfold h1. simpl. rewrite length_app. simpl. lia.
Qed.

(** ** More on the fluent modifiers *)

Lemma add_add (k v1 v2 : string) (d : Dictionary.t) :
  Dictionary.add k v2 (Dictionary.add k v1 d) = Dictionary.add k v2 d.
Proof.
  induction d as [|[k0 v0] d IH]; simpl.
  - now rewrite String.eqb_refl.
  - destruct (String.eqb_spec k0 k) as [->|Hne]; simpl.
    + now rewrite String.eqb_refl.
    + destruct (String.eqb_spec k0 k); [contradiction | now rewrite IH].
Qed.

(** What a single [add] on the node's accumulator does to the heap. *)
Lemma dict_add_own (q : ref) (k v : string) (h : Heap) :
  (q < length (dicts h))%nat ->
  let h' := snd (dict_add q k v h) in
  deref h' q = Dictionary.add k v (deref h q)
  /\ length (dicts h') = length (dicts h)
  /\ logged h' = logged h
  /\ (forall r : ref, r <> q -> deref h' r = deref h r).
Proof.
  intros Hq. rewrite dict_add_run. cbn [snd dicts logged].
  rewrite deref_insert_eq by exact Hq. rewrite length_insert.
  repeat split. intros r Hr. apply deref_insert_ne. congruence.
Qed.

Lemma dict_add_twice (q : ref) (k v1 v2 : string) (h : Heap) :
  (q < length (dicts h))%nat ->
  snd (dict_add q k v2 (snd (dict_add q k v1 h))) = snd (dict_add q k v2 h).
Proof.
  intros Hq. rewrite !dict_add_run. cbn [snd dicts logged].
  rewrite deref_insert_eq by exact Hq.
  now rewrite list_insert_insert_eq, add_add.
Qed.

(** X10. [filter(f)] answers the node it was called on, puts [f] under
    [$filter] and leaves every other parameter of the node as it was. A
    second call replaces the filter of the first: the heap is the one a
    single call with the second filter would have left. *)
Theorem filter_replaces (this : Node) (f g : string) (h : Heap) :
  allocated h this ->
  let (n, h') := Collection_filter this f h in
  n = this
  /\ Dictionary.get "$filter" (deref h' (_query this)) = Some f
  /\ (forall key, key <> "$filter" ->
        Dictionary.get key (deref h' (_query this))
        = Dictionary.get key (deref h (_query this)))
  /\ snd (Collection_filter n g h') = snd (Collection_filter this g h).
Proof.
  intros Hq. unfold allocated in Hq. unfold Collection_filter.
  rewrite mbind_run.
  destruct (dict_add_own (_query this) "$filter" f h Hq) as (Hown & _).
  pose proof (dict_add_twice (_query this) "$filter" f g h Hq) as Htwice.
  destruct (dict_add (_query this) "$filter" f h) as [[] h'].
  cbn [snd] in *. rewrite mret_run. split; [reflexivity|].
  rewrite Hown. split; [apply get_add_eq|]. split.
  - intros key Hkey. apply get_add_ne. congruence.
  - rewrite !mbind_run.
    destruct (dict_add (_query this) "$filter" g h') as [[] h2].
    destruct (dict_add (_query this) "$filter" g h) as [[] h3].
    rewrite !mret_run. exact Htwice.
Qed.

(** A method that stores the joined list of its arguments under [key]
    when there is at least one. *)
Lemma joined_setter (q : ref) (key : string) (this : Node)
    (xs ys : list string) (h : Heap) :
  (q < length (dicts h))%nat ->
  xs <> [] ->
  let op (zs : list string) : M Node :=
    (if (0 <? length zs)%nat
     then dict_add q key (JsString.join "," zs)
     else mret tt);;
    mret this in
  let (n, h') := op xs h in
  n = this
  /\ deref h' q = Dictionary.add key (JsString.join "," xs) (deref h q)
  /\ (ys <> [] -> snd (op ys h') = snd (op ys h))
  /\ snd (op [] h') = h'.
Proof.
  intros Hq Hxs op. unfold op.
  destruct xs as [|x xs]; [contradiction|]. cbn [length Nat.ltb Nat.leb].
  rewrite mbind_run.
  destruct (dict_add_own q key (JsString.join "," (x :: xs)) h Hq) as (Hown & _).
  pose proof (fun v => dict_add_twice q key (JsString.join "," (x :: xs)) v h Hq)
    as Htwice.
  destruct (dict_add q key (JsString.join "," (x :: xs)) h) as [[] h'].
  cbn [snd] in *. rewrite mret_run.
  split; [reflexivity|]. split; [exact Hown|]. split; [|reflexivity].
  intros Hys. destruct ys as [|y ys]; [contradiction|].
  cbn [length Nat.ltb Nat.leb]. rewrite !mbind_run.
  specialize (Htwice (JsString.join "," (y :: ys))).
  destruct (dict_add q key (JsString.join "," (y :: ys)) h') as [[] h2].
  destruct (dict_add q key (JsString.join "," (y :: ys)) h) as [[] h3].
  rewrite !mret_run. exact Htwice.
Qed.

(** X11. With at least one argument, [select] and [expand], on a
    collection and on an instance, answer the node and put the arguments,
    joined by commas, under [$select] or [$expand], in the place the key
    had or last; a later call with arguments replaces the list instead of
    extending it, and a later call without arguments keeps it. *)
Theorem select_expand_store (this : Node) (xs ys : list string) (h : Heap) :
  allocated h this ->
  xs <> [] ->
  let stores (key : string) (method : Node -> list string -> M Node) :=
    let (n, h') := method this xs h in
    n = this
    /\ deref h' (_query this)
       = Dictionary.add key (JsString.join "," xs) (deref h (_query this))
    /\ (ys <> [] -> snd (method this ys h') = snd (method this ys h))
    /\ snd (method this [] h') = h' in
  stores "$select" Collection_select
  /\ stores "$expand" Collection_expand
  /\ stores "$select" Instance_select
  /\ stores "$expand" Instance_expand.
Proof.
  intros Hq Hxs stores. unfold stores.
  repeat split;
    first [ apply (joined_setter (_query this) "$select" this xs ys h Hq Hxs)
          | apply (joined_setter (_query this) "$expand" this xs ys h Hq Hxs) ].
Qed.

Lemma dict_add_frame (q : ref) (k v : string) (h : Heap) :
  let h' := snd (dict_add q k v h) in
  length (dicts h') = length (dicts h)
  /\ logged h' = logged h
  /\ (forall r : ref, r <> q -> deref h' r = deref h r).
Proof.
  rewrite dict_add_run. cbn [snd dicts logged]. rewrite length_insert.
  repeat split. intros r Hr. apply deref_insert_ne. congruence.
Qed.

Lemma orderBy_shape (this : Node) (field : string) (ascending : option bool)
    (h : Heap) :
  exists v, Collection_orderBy this field ascending h
            = (this, snd (dict_add (_query this) "$orderby" v h)).
Proof.
  unfold Collection_orderBy.
  rewrite mbind_run. unfold dict_getKeys at 1. cbv beta iota.
  rewrite mbind_run, mapM_dict_get_plain. rewrite mbind_run.
  eexists. rewrite dict_add_run, mret_run. reflexivity.
Qed.

(** X12. Every fluent modifier ([filter], [select], [expand], [orderBy],
    [skip], [top] on a collection, [select] and [expand] on an instance)
    answers the node it was called on and touches nothing but that node's
    accumulator: the accumulators of all other nodes, the number of
    objects in the heap and the log are as before. *)
Theorem modifiers_frame {number : Type} (Number_toString : number -> string)
    (this : Node) (h : Heap) :
  let own (result : Node * Heap) :=
    fst result = this
    /\ length (dicts (snd result)) = length (dicts h)
    /\ logged (snd result) = logged h
    /\ forall r : ref, r <> _query this -> deref (snd result) r = deref h r in
  (forall f, own (Collection_filter this f h))
  /\ (forall xs, own (Collection_select this xs h))
  /\ (forall xs, own (Collection_expand this xs h))
  /\ (forall field ascending, own (Collection_orderBy this field ascending h))
  /\ (forall n, own (Collection_skip number Number_toString this n h))
  /\ (forall n, own (Collection_top number Number_toString this n h))
  /\ (forall xs, own (Instance_select this xs h))
  /\ (forall xs, own (Instance_expand this xs h)).
Proof.
  intros own.
  assert (Hadd : forall k v, own (this, snd (dict_add (_query this) k v h))).
  { intros k v. split; [reflexivity|]. apply dict_add_frame. }
  assert (Hnone : own (this, h)) by (repeat split).
  assert (Hlist : forall k xs,
             own (((if (0 <? length xs)%nat
                    then dict_add (_query this) k (JsString.join "," xs)
                    else mret tt);; mret this) h)).
  { intros k xs. destruct xs as [|x xs]; [exact Hnone|].
    cbn [length Nat.ltb Nat.leb]. rewrite mbind_run.
    specialize (Hadd k (JsString.join "," (x :: xs))).
    destruct (dict_add (_query this) k (JsString.join "," (x :: xs)) h) as [[] h'].
    exact Hadd. }
  assert (Hone : forall k v, own ((dict_add (_query this) k v;; mret this) h)).
  { intros k v. rewrite mbind_run. specialize (Hadd k v).
    destruct (dict_add (_query this) k v h) as [[] h']. exact Hadd. }
  split; [intros; apply Hone|].
  split; [intros; apply Hlist|].
  split; [intros; apply Hlist|].
  split.
  { intros field ascending.
    destruct (orderBy_shape this field ascending h) as [v ->]. apply Hadd. }
  split; [intros; apply Hone|].
  split; [intros; apply Hone|].
  split; intros; apply Hlist.
Qed.

Lemma join_merge (sep a b : string) (parts : list string) :
  JsString.join sep ((a +:+ sep +:+ b) :: parts)
  = JsString.join sep (a :: b :: parts).
Proof.
  destruct parts as [|p parts]; cbn [JsString.join].
  - reflexivity.
  - now rewrite !append_assoc.
Qed.

Lemma orderBys_run (this : Node) (calls : list (string * option bool))
    (h : Heap) :
  allocated h this ->
  keyUnique (deref h (_query this)) ->
  let before := deref h (_query this) in
  let parts := match Dictionary.get "$orderby" before with
               | Some old => old :: map clause calls
               | None => map clause calls
               end in
  let (n, h') := orderBys this calls h in
  n = this
  /\ Dictionary.get "$orderby" (deref h' (_query this))
     = match parts with
       | [] => None
       | _ => Some (JsString.join "," parts)
       end
  /\ (forall key, key <> "$orderby" ->
        Dictionary.get key (deref h' (_query this)) = Dictionary.get key before).
Proof.
  revert h. induction calls as [|[field asc] calls IH]; intros h Hq Hu.
  - cbn [orderBys map]. rewrite mret_run.
    split; [reflexivity|]. split; [|reflexivity].
    destruct (Dictionary.get "$orderby" (deref h (_query this))); reflexivity.
  - cbn [orderBys map fst snd]. rewrite mbind_run.
    rewrite orderBy_run by exact Hu.
    set (c := field +:+ " " +:+ (if default true asc then "asc" else "desc")).
    set (v := match Dictionary.get "$orderby" (deref h (_query this)) with
              | Some old => old +:+ "," +:+ c
              | None => c
              end).
    set (h1 := mkHeap _ _).
    assert (Hd1 : deref h1 (_query this)
                  = Dictionary.add "$orderby" v (deref h (_query this)))
      by (unfold h1; now rewrite deref_insert_eq).
    assert (Hq1 : allocated h1 this)
      by (unfold allocated, h1 in *; simpl; now rewrite length_insert).
    assert (Hu1 : keyUnique (deref h1 (_query this)))
      by (rewrite Hd1; now apply keyUnique_add).
    specialize (IH h1 Hq1 Hu1). cbv zeta in IH.
    destruct (orderBys this calls h1) as [n h'].
    destruct IH as (Hn & Hget & Hother).
    split; [exact Hn|]. split.
    + rewrite Hget, Hd1, get_add_eq.
      assert (Hc : c = clause (field, asc))
        by (subst c; destruct asc as [[|]|]; reflexivity).
      subst v. rewrite Hc. cbn [fst snd].
      destruct (Dictionary.get "$orderby" (deref h (_query this))) as [old|].
      * f_equal. apply join_merge.
      * reflexivity.
    + intros key Hkey. rewrite (Hother key Hkey), Hd1.
      apply get_add_ne. congruence.
Qed.

(** X13. Any number of [orderBy] calls in a row on a node leave under
    [$orderby] the value that was there, if any, and the clause of every
    call in the order of the calls, all joined by commas; the other
    parameters are as before and the node answered is the same node. *)
Theorem orderBys_joins (this : Node) (calls : list (string * option bool))
    (h : Heap) :
  allocated h this ->
  keyUnique (deref h (_query this)) ->
  calls <> [] ->
  let before := deref h (_query this) in
  let (n, h') := orderBys this calls h in
  n = this
  /\ Dictionary.get "$orderby" (deref h' (_query this))
     = Some (JsString.join ","
               (match Dictionary.get "$orderby" before with
                | Some old => old :: map clause calls
                | None => map clause calls
                end))
  /\ (forall key, key <> "$orderby" ->
        Dictionary.get key (deref h' (_query this)) = Dictionary.get key before).
Proof.
  intros Hq Hu Hcalls before. subst before.
  pose proof (orderBys_run this calls h Hq Hu) as H. cbv zeta in H.
  destruct (orderBys this calls h) as [n h'].
  destruct H as (Hn & Hget & Hother).
  split; [exact Hn|]. split; [|exact Hother].
  rewrite Hget. destruct calls as [|c calls]; [contradiction|].
  destruct (Dictionary.get "$orderby" (deref h (_query this))); reflexivity.
Qed.

(** What [toUrlAndQuery] answers for a URL without a token. *)
Lemma toUrlAndQuery_plain (this : Node) (h : Heap) :
  allocated h this ->
  keyUnique (deref h (_query this)) ->
  AliasRegExp.hasMatch (_url this) = false ->
  fst (toUrlAndQuery this h) = _url this +:+ queryString (deref h (_query this)).
Proof.
  intros Hq Hu Hno. rewrite (toUrlAndQuery_run this h Hq). cbn [fst].
  destruct (replaced_no_match _ Hno) as (Hbody & Hreg & _).
  unfold serialised. rewrite Hbody, Hreg.
  assert (Hm : Dictionary.merge (deref h (_query this)) Dictionary.empty
               = deref h (_query this)).
  { unfold Dictionary.merge. generalize (deref h (_query this)) Hu. clear.
    intros d Hu.
    assert (Hgen : forall acc, keyUnique (acc ++ d) ->
               fold_left (fun a kv => Dictionary.add (fst kv) (snd kv) a) d acc
               = acc ++ d).
    { clear Hu. induction d as [|[k v] d IH]; intros acc Hacc; simpl.
      - now rewrite app_nil_r.
      - rewrite add_absent.
        + rewrite IH.
          * now rewrite <- app_assoc.
          * rewrite <- app_assoc. exact Hacc.
        + apply get_None_keys. unfold keyUnique, Dictionary.getKeys in Hacc.
          rewrite map_app in Hacc. apply NoDup_app in Hacc as (_ & Hdis & _).
          intros Hin. apply (Hdis k); [now apply list_elem_of_In|].
          simpl. left. }
    exact (Hgen [] Hu). }
  rewrite Hm. now rewrite queryString_pairs.
Qed.

(** X14. The parameters come out in the order in which the modifiers were
    first called: on a node without parameters whose URL holds no token,
    [filter] then [select] serialises as [?$filter=..&$select=..], and
    [select] then [filter] as [?$select=..&$filter=..]. *)
Theorem modifiers_order (this : Node) (f : string) (xs : list string) (h : Heap) :
  allocated h this ->
  deref h (_query this) = Dictionary.empty ->
  AliasRegExp.hasMatch (_url this) = false ->
  xs <> [] ->
  (let (n1, h1) := Collection_filter this f h in
   let (n2, h2) := Collection_select n1 xs h1 in
   fst (toUrlAndQuery n2 h2)
   = _url this +:+ "?$filter=" +:+ f +:+ "&$select=" +:+ JsString.join "," xs)
  /\ (let (n1, h1) := Collection_select this xs h in
      let (n2, h2) := Collection_filter n1 f h1 in
      fst (toUrlAndQuery n2 h2)
      = _url this +:+ "?$select=" +:+ JsString.join "," xs +:+ "&$filter=" +:+ f).
Proof.
  intros Hq Hempty Hno Hxs. unfold allocated in Hq.
  destruct xs as [|x xs]; [contradiction|].
  unfold Collection_filter, Collection_select.
  cbn [length Nat.ltb Nat.leb].
  split.
  - rewrite mbind_run, dict_add_run, mret_run.
    rewrite mbind_run, dict_add_run, mret_run. cbn [dicts logged].
    rewrite deref_insert_eq by exact Hq. rewrite list_insert_insert_eq, Hempty.
    set (h2 := mkHeap _ _).
    assert (Hd : deref h2 (_query this)
                 = [("$filter", f); ("$select", JsString.join "," (x :: xs))])
      by (unfold h2; now rewrite deref_insert_eq).
    rewrite toUrlAndQuery_plain.
    + rewrite Hd. unfold queryString. cbn [map fst snd JsString.join].
      repeat first [rewrite append_assoc | progress cbn [String.append]].
      reflexivity.
    + unfold allocated, h2. simpl. now rewrite length_insert.
    + rewrite Hd. apply (bool_decide_unpack _). vm_compute. exact I.
    + exact Hno.
  - rewrite mbind_run, dict_add_run, mret_run.
    rewrite mbind_run, dict_add_run, mret_run. cbn [dicts logged].
    rewrite deref_insert_eq by exact Hq. rewrite list_insert_insert_eq, Hempty.
    set (h2 := mkHeap _ _).
    assert (Hd : deref h2 (_query this)
                 = [("$select", JsString.join "," (x :: xs)); ("$filter", f)])
      by (unfold h2; now rewrite deref_insert_eq).
    rewrite toUrlAndQuery_plain.
    + rewrite Hd. unfold queryString. cbn [map fst snd JsString.join].
      repeat first [rewrite append_assoc | progress cbn [String.append]].
      reflexivity.
    + unfold allocated, h2. simpl. now rewrite length_insert.
    + rewrite Hd. apply (bool_decide_unpack _). vm_compute. exact I.
    + exact Hno.
Qed.

(** X15. [skip(a)] and [top(b)] store what [toString] prints for their
    argument under [$skip] and [$top]; they do not disturb each other or
    any other parameter, whichever is called first, and on a node without
    parameters whose URL holds no token [skip] then [top] serialises as
    [?$skip=..&$top=..]. *)
Theorem skip_top_store {number : Type} (Number_toString : number -> string)
    (this : Node) (a b : number) (h : Heap) :
  allocated h this ->
  let skip := Collection_skip number Number_toString in
  let top := Collection_top number Number_toString in
  let after (first second : Node -> M Node) : Dictionary.t :=
    deref (snd (second this (snd (first this h)))) (_query this) in
  let stored (d : Dictionary.t) :=
    Dictionary.get "$skip" d = Some (Number_toString a)
    /\ Dictionary.get "$top" d = Some (Number_toString b)
    /\ forall key, key <> "$skip" -> key <> "$top" ->
         Dictionary.get key d = Dictionary.get key (deref h (_query this)) in
  stored (after (fun n => skip n a) (fun n => top n b))
  /\ stored (after (fun n => top n b) (fun n => skip n a))
  /\ (deref h (_query this) = Dictionary.empty ->
      AliasRegExp.hasMatch (_url this) = false ->
      fst (toUrlAndQuery this (snd (top this b (snd (skip this a h)))))
      = _url this +:+ "?$skip=" +:+ Number_toString a
        +:+ "&$top=" +:+ Number_toString b).
Proof.
  intros Hq skip top after stored. unfold allocated in Hq.
  assert (Hs : forall k v h0, (_query this < length (dicts h0))%nat ->
             snd ((dict_add (_query this) k v;; mret this) h0)
             = mkHeap (<[_query this := Dictionary.add k v (deref h0 (_query this))]>
                         (dicts h0)) (logged h0)).
  { intros k v h0 _. rewrite mbind_run, dict_add_run, mret_run. reflexivity. }
  unfold after, stored, skip, top, Collection_skip, Collection_top.
  split; [|split].
  - rewrite (Hs "$skip" _ h Hq).
    rewrite Hs by (simpl; now rewrite length_insert).
    cbn [dicts logged]. rewrite deref_insert_eq by exact Hq.
    rewrite list_insert_insert_eq, deref_insert_eq by exact Hq.
    split; [now rewrite get_add_ne, get_add_eq by discriminate|].
    split; [apply get_add_eq|].
    intros key H1 H2. rewrite !get_add_ne by congruence. reflexivity.
  - rewrite (Hs "$top" _ h Hq).
    rewrite Hs by (simpl; now rewrite length_insert).
    cbn [dicts logged]. rewrite deref_insert_eq by exact Hq.
    rewrite list_insert_insert_eq, deref_insert_eq by exact Hq.
    split; [apply get_add_eq|].
    split; [now rewrite get_add_ne, get_add_eq by discriminate|].
    intros key H1 H2. rewrite !get_add_ne by congruence. reflexivity.
  - intros Hempty Hno.
    rewrite (Hs "$skip" _ h Hq).
    rewrite Hs by (simpl; now rewrite length_insert).
    cbn [dicts logged]. rewrite deref_insert_eq by exact Hq.
    rewrite list_insert_insert_eq, Hempty.
    set (h2 := mkHeap _ _).
    assert (Hd : deref h2 (_query this)
                 = [("$skip", Number_toString a); ("$top", Number_toString b)])
      by (unfold h2; now rewrite deref_insert_eq).
    rewrite toUrlAndQuery_plain.
    + rewrite Hd. unfold queryString. cbn [map fst snd JsString.join].
      repeat first [rewrite append_assoc | progress cbn [String.append]].
      reflexivity.
    + unfold allocated, h2. simpl. now rewrite length_insert.
    + rewrite Hd. apply (bool_decide_unpack _). vm_compute. exact I.
    + exact Hno.
Qed.

(** ** Key uniqueness *)

Lemma heapUnique_setter (q : ref) (k v : string) (this : Node) (h : Heap) :
  heapUnique h -> heapUnique (snd ((dict_add q k v;; mret this) h)).
Proof.
  intros Hh. rewrite mbind_run.
  pose proof (heapUnique_add q k v h Hh) as H.
  destruct (dict_add q k v h) as [[] h']. exact H.
Qed.

Lemma heapUnique_joined (q : ref) (k : string) (xs : list string)
    (this : Node) (h : Heap) :
  heapUnique h ->
  heapUnique (snd (((if (0 <? length xs)%nat
                     then dict_add q k (JsString.join "," xs)
                     else mret tt);; mret this) h)).
Proof.
  intros Hh. destruct xs as [|x xs]; [exact Hh|].
  cbn [length Nat.ltb Nat.leb]. now apply heapUnique_setter.
Qed.

(** X16. No method gives an accumulator the same key twice: if every
    accumulator of the heap holds each key once, this is still so after
    any fluent modifier, after [toUrlAndQuery] and after
    [toRequestContext], the dictionary of aliases that serialisation
    builds included. *)
Theorem key_uniqueness_kept {number W : Type}
    (Number_toString : number -> string) (handle : Handler W) (w : W)
    (this : Node) (h : Heap) :
  allocated h this ->
  heapUnique h ->
  (forall f, heapUnique (snd (Collection_filter this f h)))
  /\ (forall xs, heapUnique (snd (Collection_select this xs h)))
  /\ (forall xs, heapUnique (snd (Collection_expand this xs h)))
  /\ (forall field ascending,
        heapUnique (snd (Collection_orderBy this field ascending h)))
  /\ (forall n, heapUnique (snd (Collection_skip number Number_toString this n h)))
  /\ (forall n, heapUnique (snd (Collection_top number Number_toString this n h)))
  /\ (forall xs, heapUnique (snd (Instance_select this xs h)))
  /\ (forall xs, heapUnique (snd (Instance_expand this xs h)))
  /\ heapUnique (snd (toUrlAndQuery this h))
  /\ (forall method supplied prs stages,
        heapUnique
          (snd (snd (fst (run handle
                           (toRequestContext this method supplied prs stages h)
                           w))))).
Proof.
  intros Hq Hh.
  split; [intros; now apply heapUnique_setter|].
  split; [intros; now apply heapUnique_joined|].
  split; [intros; now apply heapUnique_joined|].
  split; [intros; now apply heapUnique_orderBy|].
  split; [intros; now apply heapUnique_setter|].
  split; [intros; now apply heapUnique_setter|].
  split; [intros; now apply heapUnique_joined|].
  split; [intros; now apply heapUnique_joined|].
  split; [now apply heapUnique_toUrlAndQuery|].
  intros method supplied prs stages.
  pose proof (toRequestContext_heap handle w this method supplied prs stages h) as H.
  destruct (run handle (toRequestContext this method supplied prs stages h) w)
    as [[trace [res h']] w'].
  destruct H as [-> _]. now apply heapUnique_toUrlAndQuery.
Qed.

(** ** The verbs that may be cached *)

Lemma lowerChar_g (c : ascii) : lowerChar c = "g"%char -> c = "g"%char \/ c = "G"%char.
Proof.
  destruct c as [[] [] [] [] [] [] [] []]; vm_compute; intros H;
    try discriminate H; auto.
Qed.

Lemma lowerChar_e (c : ascii) : lowerChar c = "e"%char -> c = "e"%char \/ c = "E"%char.
Proof.
  destruct c as [[] [] [] [] [] [] [] []]; vm_compute; intros H;
    try discriminate H; auto.
Qed.

Lemma lowerChar_t (c : ascii) : lowerChar c = "t"%char -> c = "t"%char \/ c = "T"%char.
Proof.
  destruct c as [[] [] [] [] [] [] [] []]; vm_compute; intros H;
    try discriminate H; auto.
Qed.

(** X17. [/^get$/i] accepts exactly the eight spellings of [get] in upper
    and lower case: a verb with anything before or after, a line end
    included, is not cached. *)
Theorem test_get_verbs (method : string) :
  GetRegExp.test method = true <-> In method getVerbs.
Proof.
  rewrite test_get. split.
  - destruct method as [|c1 [|c2 [|c3 [|c4 rest]]]]; cbn [lower];
      intros H; try discriminate H.
    injection H as H1 H2 H3.
    apply lowerChar_g in H1. apply lowerChar_e in H2. apply lowerChar_t in H3.
    destruct H1 as [-> | ->], H2 as [-> | ->], H3 as [-> | ->];
      unfold getVerbs; simpl; tauto.
  - unfold getVerbs. simpl.
    intros [<-|[<-|[<-|[<-|[<-|[<-|[<-|[<-|[]]]]]]]]]; reflexivity.
Qed.

Section Uniqueness.

Variable combinePaths : string -> option string -> string.
Variable isUrlAbsolute : string -> bool.

Lemma heapUnique_alloc (h : Heap) :
  heapUnique h -> heapUnique (snd (new_Dictionary h)).
Proof.
  intros Hh. unfold heapUnique, new_Dictionary. cbn [snd dicts].
  apply Forall_app. split; [exact Hh|]. repeat constructor.
Qed.

Lemma heapUnique_construct (factory : Factory) (b : BaseUrl)
    (p : option string) (h : Heap) :
  heapUnique h ->
  heapUnique (snd (construct combinePaths isUrlAbsolute factory b p h)).
Proof.
  intros Hh. unfold construct, ODataQueryable_new.
  rewrite !mbind_run.
  pose proof (heapUnique_alloc h Hh) as H1.
  destruct (new_Dictionary h) as [q h1]. cbn [snd] in H1.
  cbv beta iota. rewrite mret_run.
  destruct b as [s|parent].
  - destruct (isUrlAbsolute s || (JsString.lastIndexOf s "/" <? 0));
      [|destruct (JsString.lastIndexOf s "/" >? JsString.lastIndexOf s "(")];
      rewrite mret_run; exact H1.
  - rewrite mbind_run. unfold ODataQueryable_extend at 1.
    rewrite mbind_run. unfold dict_merge at 1. cbv beta. cbn [_query].
    pose proof (heapUnique_update q (Dictionary.merge (deref h1 (_query parent)))
                  h1 H1) as H2.
    destruct (update q (Dictionary.merge (deref h1 (_query parent))) h1)
      as [[] h2].
    cbn [snd] in H2.
    assert (Hh2 : heapUnique h2)
      by (apply H2; intros d Hd; now apply keyUnique_fold).
    cbv beta iota. rewrite mret_run, mbind_run, dict_get_run.
    cbn [_query set_options set_url set_parentUrl].
    destruct (Dictionary.get "@target" (deref h2 (_query parent))) as [t|].
    + rewrite mbind_run.
      pose proof (heapUnique_add q "@target" t h2 Hh2) as H3.
      destruct (dict_add q "@target" t h2) as [[] h3].
      cbv beta iota. rewrite mret_run. exact H3.
    + rewrite mbind_run, !mret_run. exact Hh2.
Qed.

(** X18. Deriving a node keeps every accumulator free of repeated keys:
    this holds for the heap after the constructor, from a string or from
    a node, after [clone], after [getParent] and after the cast [as]. *)
Theorem key_uniqueness_derived (this : Node) (h : Heap) :
  heapUnique h ->
  (forall factory baseUrl path,
     heapUnique (snd (construct combinePaths isUrlAbsolute factory baseUrl path h)))
  /\ (forall factory additionalPath includeBatch,
        heapUnique (snd (clone combinePaths isUrlAbsolute this factory
                           additionalPath includeBatch h)))
  /\ (forall factory baseUrl path batch,
        heapUnique (snd (getParent combinePaths isUrlAbsolute this factory
                           baseUrl path batch h)))
  /\ (forall factory,
        heapUnique (snd (as_ combinePaths isUrlAbsolute this factory h))).
Proof.
  intros Hh.
  assert (Htarget : forall (n : Node) (h1 : Heap) (result : Node),
             heapUnique h1 ->
             heapUnique
               (snd ((dict_get (query this) "@target" ≫= fun target =>
                      match target with
                      | Some target => dict_add (query n) "@target" target
                      | None => mret tt
                      end;; mret result) h1))).
  { intros n h1 result H1. rewrite mbind_run, dict_get_run.
    destruct (Dictionary.get "@target" (deref h1 (query this))) as [t|].
    - rewrite mbind_run.
      pose proof (heapUnique_add (query n) "@target" t h1 H1) as H3.
      destruct (dict_add (query n) "@target" t h1) as [[] h3].
      cbv beta iota. rewrite mret_run. exact H3.
    - rewrite mbind_run, !mret_run. exact H1. }
  split; [intros; now apply heapUnique_construct|].
  split; [|split].
  - intros factory additionalPath includeBatch. unfold clone. rewrite mbind_run.
    pose proof (heapUnique_construct factory (BaseNode this) additionalPath h Hh)
      as H1.
    destruct (construct combinePaths isUrlAbsolute factory (BaseNode this)
                additionalPath h) as [n h1].
    apply (Htarget (configure (_options this) n)). exact H1.
  - intros factory baseUrl path batch0. unfold getParent. rewrite mbind_run.
    pose proof (heapUnique_construct factory
                  (default (BaseString (parentUrl this)) baseUrl) path h Hh) as H1.
    destruct (construct combinePaths isUrlAbsolute factory
                (default (BaseString (parentUrl this)) baseUrl) path h) as [n h1].
    apply (Htarget (configure (_options this) n)). exact H1.
  - intros factory. unfold as_. rewrite mbind_run.
    pose proof (heapUnique_construct factory (BaseString (_url this)) None h Hh)
      as H1.
    destruct (construct combinePaths isUrlAbsolute factory
                (BaseString (_url this)) None h) as [o h1].
    unfold extend. rewrite mret_run. exact H1.
Qed.

End Uniqueness.

(** ** The further statements at concrete inputs *)

Lemma sample_heap_unique : heapUnique Sample.heap.
Proof.
  unfold heapUnique.
  repeat (constructor; [apply (bool_decide_unpack _); vm_compute; exact I|]).
  constructor.
Qed.

Lemma sample_allocated :
  allocated Sample.heap Sample.tasks /\ allocated Sample.heap Sample.item
  /\ allocated Sample.heap Sample.lists.
Proof. unfold allocated. simpl. lia. Qed.

Lemma exec_token_iff_witness :
  let s := "'!@p1::Some long value')/items" in
  let m := AliasRegExp.mkMatch "'!@p1::Some long value'" "@p1" "Some long value"
             ")/items" in
  AliasRegExp.exec s = Some m
  /\ isLabel (AliasRegExp.labelName m) = true
  /\ isValue (AliasRegExp.value m) = true.
Proof.
  intros s m.
  assert (H : AliasRegExp.exec s = Some m) by reflexivity.
  split; [exact H|].
  destruct (proj1 (exec_token_iff s m) H) as (Hl & Hv & _).
  split; [exact Hl | exact Hv].
Defined.

Lemma replace_shortens_witness :
  let s := _url Sample.tasks in
  let body := fst (AliasRegExp.replace s (rewriteAlias 0%nat) Sample.heap) in
  (0 < length (dicts Sample.heap))%nat
  /\ AliasRegExp.hasMatch s = true
  /\ (String.length body <= String.length s)%nat
  /\ (AliasRegExp.hasMatch s = false -> body = s)
  /\ (AliasRegExp.hasMatch s = true ->
      (String.length body + 5 <= String.length s)%nat).
Proof.
  intros s body.
  assert (H : (0 < length (dicts Sample.heap))%nat) by (simpl; lia).
  split; [exact H|]. split; [reflexivity|].
  exact (replace_shortens s 0%nat Sample.heap H).
Defined.

Lemma toUrlAndQuery_logs_witness :
  let segs := [("_api/web/lists/getbytitle(", "@p1", "Some long value")] in
  let tail := ")/items" in
  allocated Sample.heap Sample.tasks
  /\ _url Sample.tasks = render segs tail
  /\ wellFormed segs tail
  /\ logged (snd (toUrlAndQuery Sample.tasks Sample.heap))
     = logged Sample.heap ++ map logLine segs.
Proof.
  intros segs tail.
  assert (Ha : allocated Sample.heap Sample.tasks) by (unfold allocated; simpl; lia).
  assert (Hr : _url Sample.tasks = render segs tail) by reflexivity.
  assert (Hw : wellFormed segs tail) by (split; repeat constructor).
  repeat (split; [assumption|]).
  exact (toUrlAndQuery_logs Sample.tasks Sample.heap segs tail Ha Hr Hw).
Defined.

Lemma getParent_from_string_witness :
  allocated Sample.heap Sample.item
  /\ (let (n, h') := getParent Sample.combine Sample.isAbsolute Sample.item
                       SharePointQueryableCollection (BaseString <$> None)
                       None None Sample.heap in
      deref h' (_query n)
      = match Dictionary.get "@target" (deref Sample.heap (_query Sample.item)) with
        | Some target => [("@target", target)]
        | None => []
        end
      /\ _batch n = None
      /\ _class n = SharePointQueryableCollection).
Proof.
  assert (Ha : allocated Sample.heap Sample.item) by (unfold allocated; simpl; lia).
  split; [exact Ha|].
  exact (getParent_from_string Sample.combine Sample.isAbsolute Sample.item
           Sample.heap SharePointQueryableCollection None None None Ha).
Defined.

Lemma toRequestContext_again_witness :
  allocated Sample.heap Sample.item
  /\ (let '(trace1, (_, h1), _) :=
        run Sample.collaborators
            (toRequestContext Sample.item "GET" None 0%nat [] Sample.heap) 0%nat in
      let '(trace2, (_, h2), _) :=
        run Sample.offline
            (toRequestContext Sample.item "POST" None 1%nat [] h1) 0%nat in
      candidates trace1 = candidates trace2
      /\ (forall r : ref, (r < length (dicts Sample.heap))%nat ->
            deref h1 r = deref Sample.heap r /\ deref h2 r = deref Sample.heap r)).
Proof.
  assert (Ha : allocated Sample.heap Sample.item) by (unfold allocated; simpl; lia).
  split; [exact Ha|].
  exact (toRequestContext_again Sample.collaborators 0%nat Sample.offline 0%nat
           Sample.item "GET" "POST" None None 0%nat 1%nat [] [] Sample.heap Ha).
Defined.

Lemma filter_replaces_witness :
  allocated Sample.heap Sample.item
  /\ (let (n, h') := Collection_filter Sample.item "Id lt 3" Sample.heap in
      n = Sample.item
      /\ Dictionary.get "$filter" (deref h' (_query Sample.item)) = Some "Id lt 3"
      /\ (forall key, key <> "$filter" ->
            Dictionary.get key (deref h' (_query Sample.item))
            = Dictionary.get key (deref Sample.heap (_query Sample.item)))
      /\ snd (Collection_filter n "Id eq 1" h')
         = snd (Collection_filter Sample.item "Id eq 1" Sample.heap)).
Proof.
  assert (Ha : allocated Sample.heap Sample.item) by (unfold allocated; simpl; lia).
  split; [exact Ha|].
  exact (filter_replaces Sample.item "Id lt 3" "Id eq 1" Sample.heap Ha).
Defined.

Lemma select_expand_store_witness :
  let this := Sample.tasks in
  let h := Sample.heap in
  let xs := ["Author"; "Editor"] in
  let ys := ["Id"] in
  let stores (key : string) (method : Node -> list string -> M Node) :=
    let (n, h') := method this xs h in
    n = this
    /\ deref h' (_query this)
       = Dictionary.add key (JsString.join "," xs) (deref h (_query this))
    /\ (ys <> [] -> snd (method this ys h') = snd (method this ys h))
    /\ snd (method this [] h') = h' in
  allocated h this /\ xs <> [] /\ ys <> []
  /\ stores "$select" Collection_select
  /\ stores "$expand" Collection_expand
  /\ stores "$select" Instance_select
  /\ stores "$expand" Instance_expand.
Proof.
  intros this h xs ys stores.
  assert (Ha : allocated h this) by (unfold allocated; simpl; lia).
  assert (Hx : xs <> []) by discriminate.
  split; [exact Ha|]. split; [exact Hx|]. split; [discriminate|].
  exact (select_expand_store this xs ys h Ha Hx).
Defined.

Lemma orderBys_joins_witness :
  let this := Sample.tasks in
  let h := Sample.heap in
  let calls := [("Title", None); ("Created", Some false); ("Id", Some true)] in
  allocated h this /\ keyUnique (deref h (_query this)) /\ calls <> []
  /\ (let (n, h') := orderBys this calls h in
      n = this
      /\ Dictionary.get "$orderby" (deref h' (_query this))
         = Some (JsString.join ","
                   (match Dictionary.get "$orderby" (deref h (_query this)) with
                    | Some old => old :: map clause calls
                    | None => map clause calls
                    end))
      /\ (forall key, key <> "$orderby" ->
            Dictionary.get key (deref h' (_query this))
            = Dictionary.get key (deref h (_query this)))).
Proof.
  intros this h calls.
  assert (Ha : allocated h this) by (unfold allocated; simpl; lia).
  assert (Hu : keyUnique (deref h (_query this)))
    by (apply (bool_decide_unpack _); vm_compute; exact I).
  assert (Hc : calls <> []) by discriminate.
  repeat (split; [assumption|]).
  exact (orderBys_joins this calls h Ha Hu Hc).
Defined.

Lemma modifiers_order_witness :
  let this := Sample.lists in
  let h := Sample.heap in
  let f := "Hidden eq false" in
  let xs := ["Title"; "Id"] in
  allocated h this
  /\ deref h (_query this) = Dictionary.empty
  /\ AliasRegExp.hasMatch (_url this) = false
  /\ xs <> []
  /\ (let (n1, h1) := Collection_filter this f h in
      let (n2, h2) := Collection_select n1 xs h1 in
      fst (toUrlAndQuery n2 h2)
      = _url this +:+ "?$filter=" +:+ f +:+ "&$select=" +:+ JsString.join "," xs)
  /\ (let (n1, h1) := Collection_select this xs h in
      let (n2, h2) := Collection_filter n1 f h1 in
      fst (toUrlAndQuery n2 h2)
      = _url this +:+ "?$select=" +:+ JsString.join "," xs +:+ "&$filter=" +:+ f).
Proof.
  intros this h f xs.
  assert (Ha : allocated h this) by (unfold allocated; simpl; lia).
  assert (He : deref h (_query this) = Dictionary.empty) by reflexivity.
  assert (Hn : AliasRegExp.hasMatch (_url this) = false) by reflexivity.
  assert (Hx : xs <> []) by discriminate.
  repeat (split; [assumption|]).
  exact (modifiers_order this f xs h Ha He Hn Hx).
Defined.

Lemma skip_top_store_witness :
  let this := Sample.lists in
  let h := Sample.heap in
  let skip := Collection_skip Z Sample.decimal in
  let top := Collection_top Z Sample.decimal in
  let after (first second : Node -> M Node) : Dictionary.t :=
    deref (snd (second this (snd (first this h)))) (_query this) in
  let stored (d : Dictionary.t) :=
    Dictionary.get "$skip" d = Some (Sample.decimal 20)
    /\ Dictionary.get "$top" d = Some (Sample.decimal 10)
    /\ forall key, key <> "$skip" -> key <> "$top" ->
         Dictionary.get key d = Dictionary.get key (deref h (_query this)) in
  allocated h this
  /\ deref h (_query this) = Dictionary.empty
  /\ AliasRegExp.hasMatch (_url this) = false
  /\ stored (after (fun n => skip n 20) (fun n => top n 10))
  /\ stored (after (fun n => top n 10) (fun n => skip n 20))
  /\ (deref h (_query this) = Dictionary.empty ->
      AliasRegExp.hasMatch (_url this) = false ->
      fst (toUrlAndQuery this (snd (top this 10 (snd (skip this 20 h)))))
      = _url this +:+ "?$skip=" +:+ Sample.decimal 20
        +:+ "&$top=" +:+ Sample.decimal 10).
Proof.
  intros this h skip top after stored.
  assert (Ha : allocated h this) by (unfold allocated; simpl; lia).
  split; [exact Ha|]. split; [reflexivity|]. split; [reflexivity|].
  exact (skip_top_store Sample.decimal this 20 10 h Ha).
Defined.

Lemma key_uniqueness_kept_witness :
  let this := Sample.item in
  let h := Sample.heap in
  allocated h this /\ heapUnique h
  /\ (forall f, heapUnique (snd (Collection_filter this f h)))
  /\ (forall xs, heapUnique (snd (Collection_select this xs h)))
  /\ (forall xs, heapUnique (snd (Collection_expand this xs h)))
  /\ (forall field ascending,
        heapUnique (snd (Collection_orderBy this field ascending h)))
  /\ (forall n, heapUnique (snd (Collection_skip Z Sample.decimal this n h)))
  /\ (forall n, heapUnique (snd (Collection_top Z Sample.decimal this n h)))
  /\ (forall xs, heapUnique (snd (Instance_select this xs h)))
  /\ (forall xs, heapUnique (snd (Instance_expand this xs h)))
  /\ heapUnique (snd (toUrlAndQuery this h))
  /\ (forall method supplied prs stages,
        heapUnique
          (snd (snd (fst (run Sample.collaborators
                           (toRequestContext this method supplied prs stages h)
                           0%nat))))).
Proof.
  intros this h.
  assert (Ha : allocated h this) by (unfold allocated; simpl; lia).
  split; [exact Ha|]. split; [exact sample_heap_unique|].
  exact (key_uniqueness_kept Sample.decimal Sample.collaborators 0%nat this h
           Ha sample_heap_unique).
Defined.

Lemma test_get_verbs_witness :
  GetRegExp.test "gEt" = true /\ In "gEt" getVerbs.
Proof.
  assert (H : GetRegExp.test "gEt" = true) by reflexivity.
  split; [exact H|]. exact (proj1 (test_get_verbs "gEt") H).
Defined.

Lemma key_uniqueness_derived_witness :
  let this := Sample.item in
  let h := Sample.heap in
  heapUnique h
  /\ (forall factory baseUrl path,
        heapUnique (snd (construct Sample.combine Sample.isAbsolute factory
                           baseUrl path h)))
  /\ (forall factory additionalPath includeBatch,
        heapUnique (snd (clone Sample.combine Sample.isAbsolute this factory
                           additionalPath includeBatch h)))
  /\ (forall factory baseUrl path batch,
        heapUnique (snd (getParent Sample.combine Sample.isAbsolute this factory
                           baseUrl path batch h)))
  /\ (forall factory,
        heapUnique (snd (as_ Sample.combine Sample.isAbsolute this factory h))).
Proof.
  intros this h. split; [exact sample_heap_unique|].
  exact (key_uniqueness_derived Sample.combine Sample.isAbsolute this h
           sample_heap_unique).
Defined.

Example skip_top_lists :
  let (n1, h1) := Collection_skip Z Sample.decimal Sample.lists 20 Sample.heap in
  let (n2, h2) := Collection_top Z Sample.decimal n1 10 h1 in
  fst (toUrlAndQuery n2 h2) = "_api/web/lists?$skip=20&$top=10".
Proof. vm_compute. reflexivity. Qed.

Example rejected_build :
  let '(trace, (result, _), _) :=
    run Sample.offline
        (toRequestContext Sample.item "GET" None 0%nat [] Sample.heap) 0%nat in
  result = Rejected "offline" /\ guids trace = [] /\ length trace = 2%nat.
Proof. vm_compute. repeat split. Qed.

Lemma toUrlAndQuery_rewrites_witness :
  let segs := [("_api/web/lists/getbytitle(", "@p1", "Tasks")] in
  let tail := ")/items('!@p2:19')" in
  let accumulator := deref Sample.heap (_query Sample.mixed) in
  let params := Dictionary.merge accumulator (aliases segs) in
  allocated Sample.heap Sample.mixed
  /\ keyUnique accumulator
  /\ _url Sample.mixed = render segs tail
  /\ scanned segs tail
  /\ fst (toUrlAndQuery Sample.mixed Sample.heap)
     = "_api/web/lists/getbytitle(@p1)/items('!@p2:19')?@p1='Tasks'&$select=Title,Id"
  /\ fst (toUrlAndQuery Sample.mixed Sample.heap)
     = rewritten segs tail +:+ queryString params.
Proof.
  intros segs tail accumulator params.
  assert (Ha : allocated Sample.heap Sample.mixed) by (unfold allocated; simpl; lia).
  assert (Hu : keyUnique accumulator)
    by (apply (bool_decide_unpack _); vm_compute; exact I).
  assert (Hr : _url Sample.mixed = render segs tail) by reflexivity.
  assert (Hs : scanned segs tail).
  { unfold segs. cbn [scanned].
    split; [apply inert_matchesWithin; reflexivity|].
    split; [reflexivity|]. split; [reflexivity|].
    apply inert_matchesWithin; reflexivity. }
  repeat (split; [assumption|]).
  split; [reflexivity|].
  exact (proj1 (proj2 (toUrlAndQuery_rewrites Sample.mixed Sample.heap Ha Hu)
                  segs tail Hr Hs)).
Defined.

(** C3, a value of two lines. The URL of [Sample.twoLines] holds one token
    ['!@label::value'] whose value has a line feed in it. [.] matches no
    line terminator, so the pattern matches nowhere: the URL comes back as
    it is, with the token in it and with no [@p1] parameter. *)
Lemma toUrlAndQuery_line_feed :
  let value := "Tasks" +:+ String "010" "2019" in
  let segs := [("_api/web/lists/getbytitle(", "@p1", value)] in
  let tail := ")/items" in
  let accumulator := deref Sample.heap (_query Sample.twoLines) in
  _url Sample.twoLines = render segs tail
  /\ fst (toUrlAndQuery Sample.twoLines Sample.heap) = render segs tail
  /\ fst (toUrlAndQuery Sample.twoLines Sample.heap)
     <> rewritten segs tail
        +:+ queryString (Dictionary.merge accumulator (aliases segs)).
Proof. vm_compute. repeat split. discriminate. Qed.
